(** * WebScout: the licensed-content harvester of appscroll-backend

    A shallow embedding of the harvester module (the second half of
    [src/index.js], from the banner "WEBSCOUT - Licensed Content Harvester"
    on) and the properties its specification states about it.

    Modelling conventions.
    - A JavaScript string is a [string] (a sequence of bytes; a literal
      such as the ellipsis is its UTF-8 encoding).  [length],
      [toLowerCase] and [trim] therefore agree with JavaScript on ASCII
      text; the properties that speak of letter case, of white space
      or of lengths are to be read on ASCII text.
    - A JavaScript number that the code uses as a count or an index is a
      [Z]; the values returned by [Math.random()] are rationals.
    - [undefined] is modelled only where the code itself provides for it
      (optional chaining, a truthiness test, an [||] default): such a
      value is an [option string], [None] standing for [undefined].
    - An [async] function is modelled by what its promise settles to. *)

From Stdlib Require Import ZArith QArith Qround Ascii String Lia.
From stdpp Require Import base list strings pretty.

Local Open Scope string_scope.
Local Open Scope Z_scope.
Local Open Scope list_scope.

(** ** JavaScript strings *)

Module JS.

(** [!s] is false exactly for the empty string. *)
Definition truthy (s : string) : bool :=
  match s with
  | EmptyString => false
  | String _ _ => true
  end.

(** Truthiness of a value that may be [undefined]. *)
Definition truthy_opt (o : option string) : bool :=
  match o with
  | None => false
  | Some s => truthy s
  end.

(** [a || b] where [a] may be [undefined] and [b] is a string. *)
Definition or_else (a : option string) (b : string) : string :=
  match a with
  | Some s => if truthy s then s else b
  | None => b
  end.

(** [a || b] where both may be [undefined]. *)
Definition or_opt (a b : option string) : option string :=
  if truthy_opt a then a else b.

(** String coercion of a value that may be [undefined], as a template
    literal or [+] performs it. *)
Definition to_string (o : option string) : string :=
  match o with
  | Some s => s
  | None => "undefined"
  end.

Definition lower_ascii (c : ascii) : ascii :=
  let n := nat_of_ascii c in
  if ((65 <=? n)%nat && (n <=? 90)%nat)%bool then ascii_of_nat (n + 32) else c.

Fixpoint toLowerCase (s : string) : string :=
  match s with
  | EmptyString => EmptyString
  | String c r => String (lower_ascii c) (toLowerCase r)
  end.

(** [s.includes(needle)]: [needle] occurs in [s] as a substring. *)
Fixpoint includes (s needle : string) : bool :=
  if String.prefix needle s then true
  else match s with
       | EmptyString => false
       | String _ r => includes r needle
       end.

(** The ASCII white space that [trim] removes. *)
Definition is_space (c : ascii) : bool :=
  let n := nat_of_ascii c in
  ((n =? 32)%nat || ((9 <=? n)%nat && (n <=? 13)%nat))%bool.

Fixpoint trimStart (s : string) : string :=
  match s with
  | EmptyString => EmptyString
  | String c r => if is_space c then trimStart r else s
  end.

Fixpoint trimEnd (s : string) : string :=
  match s with
  | EmptyString => EmptyString
  | String c r =>
      let r' := trimEnd r in
      if (is_space c && negb (truthy r'))%bool then EmptyString
      else String c r'
  end.

Definition trim (s : string) : string := trimEnd (trimStart s).

(** [s.slice(0, e)] for an integer [e]. *)
Definition str_slice0 (s : string) (e : Z) : string :=
  let len := Z.of_nat (String.length s) in
  let final := if e <? 0 then Z.max (len + e) 0 else Z.min e len in
  String.substring 0 (Z.to_nat final) s.

(** [s.slice(n)] for a natural [n]. *)
Fixpoint str_drop (n : nat) (s : string) : string :=
  match n, s with
  | O, _ => s
  | S _, EmptyString => EmptyString
  | S n', String _ r => str_drop n' r
  end.

(** [s.replace(/c/g, by)] for a single character [c]. *)
Fixpoint replace_all (c : ascii) (by_ : string) (s : string) : string :=
  match s with
  | EmptyString => EmptyString
  | String d r =>
      if Ascii.eqb d c then by_ +:+ replace_all c by_ r
      else String d (replace_all c by_ r)
  end.

(** [s.split(c)[0]]: the text before the first [c]. *)
Fixpoint before_first (c : ascii) (s : string) : string :=
  match s with
  | EmptyString => EmptyString
  | String d r => if Ascii.eqb d c then EmptyString else String d (before_first c r)
  end.

(** [s.replace(pat, '')] for a string pattern: the first occurrence
    only. *)
Fixpoint remove_first (pat : string) (s : string) : string :=
  if String.prefix pat s then str_drop (String.length pat) s
  else match s with
       | EmptyString => EmptyString
       | String c r => String c (remove_first pat r)
       end.

(** [s.replace(/<[^>]*>/g, '')].  [pending] holds the text read since
    an opening angle bracket that has not been closed yet; it is kept
    when the string ends before the bracket closes. *)
Fixpoint strip_tags_from (pending : option string) (s : string) : string :=
  match s with
  | EmptyString => match pending with Some p => p | None => EmptyString end
  | String c r =>
      match pending with
      | None =>
          if Ascii.eqb c "<" then strip_tags_from (Some "<") r
          else String c (strip_tags_from None r)
      | Some p =>
          if Ascii.eqb c ">" then strip_tags_from None r
          else strip_tags_from (Some (p +:+ String c EmptyString)) r
      end
  end.

Definition strip_tags (s : string) : string := strip_tags_from None s.

(** [s.replace(/\.[^.]+$/, '')]: drops a final extension, a dot
    followed by at least one character none of which is a dot. *)
Fixpoint strip_extension (s : string) : string :=
  match s with
  | EmptyString => EmptyString
  | String c r =>
      if (Ascii.eqb c "." && truthy r && negb (includes r "."))%bool
      then EmptyString
      else String c (strip_extension r)
  end.

Definition hex_digit (n : nat) : ascii :=
  if (n <? 10)%nat then ascii_of_nat (48 + n) else ascii_of_nat (55 + n).

Definition unreserved (c : ascii) : bool :=
  let n := nat_of_ascii c in
  (((65 <=? n)%nat && (n <=? 90)%nat) || ((97 <=? n)%nat && (n <=? 122)%nat)
   || ((48 <=? n)%nat && (n <=? 57)%nat)
   || includes "-_.!~*'()" (String c EmptyString))%bool.

(** [encodeURIComponent(s)], byte by byte on the UTF-8 encoding. *)
Fixpoint encodeURIComponent (s : string) : string :=
  match s with
  | EmptyString => EmptyString
  | String c r =>
      if unreserved c then String c (encodeURIComponent r)
      else
        let n := nat_of_ascii c in
        String "%" (String (hex_digit (n / 16)) (String (hex_digit (n mod 16))
          (encodeURIComponent r)))
  end.

(** [array.includes(x)] on an array of strings. *)
Definition array_includes (l : list string) (x : string) : bool :=
  existsb (String.eqb x) l.

(** [array.slice(0, e)] for an integer [e]: a negative end counts from
    the end of the array. *)
Definition slice0 {A} (a : list A) (e : Z) : list A :=
  let len := Z.of_nat (length a) in
  let final := if e <? 0 then Z.max (len + e) 0 else Z.min e len in
  take (Z.to_nat final) a.

(** [Math.ceil(n / 2)] for an integer [n]. *)
Definition ceil_half (n : Z) : Z := - ((- n) / 2).

(** What a promise settles to: the entries of [Promise.allSettled]. *)
Inductive settled (A : Type) : Type :=
| fulfilled (value : A)
| rejected (reason : string).
Arguments fulfilled {A} value.
Arguments rejected {A} reason.

End JS.

(** ** The license enum and the two license sets *)

Module License.
Definition PD := "PD".
Definition CC0 := "CC0".
Definition CCBY := "CCBY".
Definition CCBYSA := "CCBYSA".
Definition NASA_PD := "NASA_PD".
Definition UNKNOWN := "UNKNOWN".
Definition NOT_ALLOWED := "NOT_ALLOWED".
End License.

Definition RENDER_ALLOWED_LICENSES : list string :=
  [License.PD; License.CC0; License.CCBY; License.CCBYSA; License.NASA_PD].

Definition ATTRIBUTION_REQUIRED : list string :=
  [License.CCBY; License.CCBYSA; License.NASA_PD].

(** ** Candidates *)

Record LicensedCandidate : Type := mkCandidate {
  id : string;
  u : string;
  k : string;
  ttl : string;
  desc : string;
  src : string;
  lic : string;
  att : string;
  link : string;
  safe : bool
}.

(** ** Helper functions *)

Definition parseWikimediaLicense (licenseString : option string) : string :=
  if negb (JS.truthy_opt licenseString) then License.UNKNOWN
  else
    let lower := JS.toLowerCase (JS.to_string licenseString) in
    if (JS.includes lower "cc0" || JS.includes lower "public domain"
        || (lower =? "pd")%string)%bool
    then License.CC0
    else if (JS.includes lower "cc-by-sa" || JS.includes lower "cc by-sa")%bool
    then License.CCBYSA
    else if (JS.includes lower "cc-by" || JS.includes lower "cc by")%bool
    then License.CCBY
    else License.UNKNOWN.

Definition parseEuropeanaRights (rightsUrl : option string) : string :=
  if negb (JS.truthy_opt rightsUrl) then License.UNKNOWN
  else
    let lower := JS.toLowerCase (JS.to_string rightsUrl) in
    if (JS.includes lower "publicdomain" || JS.includes lower "cc0"
        || JS.includes lower "/mark/")%bool
    then License.CC0
    else if JS.includes lower "by-sa" then License.CCBYSA
    else if JS.includes lower "/by/" then License.CCBY
    else if (JS.includes lower "in-copyright" || JS.includes lower "orphan-work")%bool
    then License.NOT_ALLOWED
    else License.UNKNOWN.

Definition rightsToString (license : string) : string :=
  if (license =? License.CCBY)%string then "CC BY 4.0"
  else if (license =? License.CCBYSA)%string then "CC BY-SA 4.0"
  else if (license =? License.CC0)%string then "CC0 Public Domain"
  else if (license =? License.PD)%string then "Public Domain"
  else if (license =? License.NASA_PD)%string then "NASA/Public Domain"
  else "".

Definition truncate (str : option string) (maxLen : Z) : string :=
  if negb (JS.truthy_opt str) then ""
  else
    let str := JS.trim (JS.to_string str) in
    if Z.of_nat (String.length str) <=? maxLen then str
    else JS.str_slice0 str (maxLen - 1) +:+ "…".

Definition unsafeTerms : list string :=
  ["nsfw"; "nude"; "naked"; "porn"; "xxx"; "sexual"; "erotic";
   "gore"; "graphic violence"; "torture"; "beheading";
   "nazi"; "white supremac"; "kkk"; "hate group"].

Definition basicSafetyCheck (text : option string) : bool :=
  if negb (JS.truthy_opt text) then true
  else
    let lower := JS.toLowerCase (JS.to_string text) in
    negb (existsb (JS.includes lower) unsafeTerms).

(** ** The source adapters

    Each adapter is a function of what its upstream answers.  The JSON
    payloads are typed after the providers' documented shapes; a field is
    optional where the adapter itself provides for its absence.  The
    request URLs are not modelled: the answers are arbitrary. *)

(** The answer to one [fetch]: the request failed or its body was not
    JSON (an exception, caught by the adapter), the status was not a
    success, or a payload arrived. *)
Inductive response (A : Type) : Type :=
| network_error
| http_error
| ok (data : A).
Arguments network_error {A}.
Arguments http_error {A}.
Arguments ok {A} data.

(** A [for (const item of items)] loop that pushes at most one candidate
    per item; [body] returns [None] where the loop body [continue]s. *)
Definition for_of {I} (body : I -> option LicensedCandidate) (items : list I)
    (candidates : list LicensedCandidate) : list LicensedCandidate :=
  fold_left
    (fun cs item => match body item with Some c => cs ++ [c] | None => cs end)
    items candidates.

(** The same loop opening with
    [if (candidates.length >= limit) break;]. *)
Fixpoint for_of_until {I} (limit : Z) (body : I -> option LicensedCandidate)
    (items : list I) (candidates : list LicensedCandidate)
    : list LicensedCandidate :=
  match items with
  | [] => candidates
  | item :: rest =>
      if Z.of_nat (length candidates) >=? limit then candidates
      else for_of_until limit body rest
             (match body item with Some c => candidates ++ [c] | None => candidates end)
  end.

(** *** NASA APOD *)

Record apod_item : Type := {
  apod_date : string;
  apod_url : string;
  apod_media_type : string;
  apod_title : option string;
  apod_explanation : option string;
  apod_copyright : option string
}.

(** The service answers with one item or with an array of items. *)
Inductive apod_data : Type :=
| apod_one (item : apod_item)
| apod_many (items : list apod_item).

Definition apod_candidate (item : apod_item) : option LicensedCandidate :=
  if (apod_media_type item =? "video")%string then None
  else Some {|
    id := "nasa:apod:" +:+ apod_date item;
    u := apod_url item;
    k := "space";
    ttl := truncate (apod_title item) 50;
    desc := truncate (apod_explanation item) 100;
    src := "NASA APOD";
    lic := License.NASA_PD;
    att := if JS.truthy_opt (apod_copyright item)
           then "© " +:+ JS.to_string (apod_copyright item) +:+ " — NASA APOD"
           else "NASA/Public Domain";
    link := "https://apod.nasa.gov/apod/ap"
            +:+ JS.str_drop 2 (JS.replace_all "-" "" (apod_date item)) +:+ ".html";
    safe := basicSafetyCheck
              (Some (JS.to_string (apod_title item) +:+ " "
                     +:+ JS.to_string (apod_explanation item)))
  |}.

Definition fetchNASAAPOD (answer : response apod_data) (limit : Z)
    : list LicensedCandidate :=
  match answer with
  | ok data =>
      let items := match data with apod_many l => l | apod_one i => [i] end in
      for_of apod_candidate (JS.slice0 items limit) []
  | _ => []
  end.

(** *** NASA EPIC *)

Record epic_item : Type := {
  epic_identifier : string;
  epic_date : string;
  epic_image : string;
  epic_caption : option string
}.

Definition epic_candidate (item : epic_item) : option LicensedCandidate :=
  let date := JS.replace_all "-" "/" (JS.before_first " " (epic_date item)) in
  let imageUrl := "https://epic.gsfc.nasa.gov/archive/natural/" +:+ date
                  +:+ "/png/" +:+ epic_image item +:+ ".png" in
  Some {|
    id := "nasa:epic:" +:+ epic_identifier item;
    u := imageUrl;
    k := "earth";
    ttl := truncate (Some (JS.or_else (epic_caption item) "Earth from DSCOVR")) 50;
    desc := "Earth as seen from deep space";
    src := "NASA EPIC";
    lic := License.NASA_PD;
    att := "NASA/DSCOVR EPIC";
    link := "https://epic.gsfc.nasa.gov/";
    safe := true
  |}.

Definition fetchNASAEPIC (answer : response (list epic_item)) (limit : Z)
    : list LicensedCandidate :=
  match answer with
  | ok data => for_of epic_candidate (JS.slice0 data limit) []
  | _ => []
  end.

(** *** The Metropolitan Museum of Art *)

Record met_object : Type := {
  met_objectID : Z;
  met_isPublicDomain : bool;
  met_primaryImageSmall : option string;
  met_title : option string;
  met_artistDisplayName : option string;
  met_objectDate : option string;
  met_objectURL : string
}.

(** The body of the inner [try]: a failed request or a status that is
    not a success skips the object. *)
Definition met_candidate (object : Z -> response met_object) (objectId : Z)
    : option LicensedCandidate :=
  match object objectId with
  | ok obj =>
      if (negb (met_isPublicDomain obj)
          || negb (JS.truthy_opt (met_primaryImageSmall obj)))%bool
      then None
      else Some {|
        id := "met:" +:+ pretty (met_objectID obj);
        u := JS.to_string (met_primaryImageSmall obj);
        k := "art";
        ttl := truncate (met_title obj) 50;
        desc := truncate
                  (Some (JS.or_else (met_artistDisplayName obj) "Unknown" +:+ ", "
                         +:+ JS.or_else (met_objectDate obj) "")) 80;
        src := "The Met Museum";
        lic := License.CC0;
        att := "";
        link := met_objectURL obj;
        safe := basicSafetyCheck (met_title obj)
      |}
  | _ => None
  end.

(** [search] is the answer to the search request, whose [objectIDs] may
    be absent, and [object] the answer to the request for one object. *)
Definition fetchMetMuseum (search : response (option (list Z)))
    (object : Z -> response met_object) (limit : Z) : list LicensedCandidate :=
  match search with
  | ok objectIDs =>
      let objectIds :=
        match objectIDs with
        | Some ids => JS.slice0 ids (limit * 3)
        | None => []
        end in
      for_of_until limit (met_candidate object) objectIds []
  | _ => []
  end.

(** *** Art Institute of Chicago *)

Record artic_artwork : Type := {
  artic_id : Z;
  artic_image_id : option string;
  artic_is_public_domain : bool;
  artic_title : option string;
  artic_artist_title : option string;
  artic_date_display : option string
}.

Record artic_data : Type := {
  artic_iiif_url : option string;
  artic_artworks : option (list artic_artwork)
}.

Definition artic_candidate (iiifBase : string) (artwork : artic_artwork)
    : option LicensedCandidate :=
  if (negb (JS.truthy_opt (artic_image_id artwork))
      || negb (artic_is_public_domain artwork))%bool
  then None
  else
    let imageUrl := iiifBase +:+ "/" +:+ JS.to_string (artic_image_id artwork)
                    +:+ "/full/843,/0/default.jpg" in
    Some {|
      id := "artic:" +:+ pretty (artic_id artwork);
      u := imageUrl;
      k := "art";
      ttl := truncate (artic_title artwork) 50;
      desc := truncate
                (Some (JS.or_else (artic_artist_title artwork) "Unknown" +:+ ", "
                       +:+ JS.or_else (artic_date_display artwork) "")) 80;
      src := "Art Institute Chicago";
      lic := License.CC0;
      att := "";
      link := "https://www.artic.edu/artworks/" +:+ pretty (artic_id artwork);
      safe := basicSafetyCheck (artic_title artwork)
    |}.

Definition fetchArtInstituteChicago (answer : response artic_data) (limit : Z)
    : list LicensedCandidate :=
  match answer with
  | ok data =>
      let iiifBase := JS.or_else (artic_iiif_url data) "https://www.artic.edu/iiif/2" in
      for_of (artic_candidate iiifBase) (default [] (artic_artworks data)) []
  | _ => []
  end.

(** *** Smithsonian Open Access *)

(** The fields read through optional chaining under [row.content]:
    [descriptiveNonRepeating?.online_media?.media?.[0]?.content],
    [descriptiveNonRepeating?.title?.content],
    [freetext?.notes?.[0]?.content] and [descriptiveNonRepeating?.guid]. *)
Record si_content : Type := {
  si_media_content : option string;
  si_title : option string;
  si_notes : option string;
  si_guid : option string
}.

Record si_row : Type := {
  si_id : string;
  si_row_content : option si_content
}.

Definition smithsonian_candidate (row : si_row) : option LicensedCandidate :=
  match si_row_content row with
  | None => None
  | Some content =>
      if negb (JS.truthy_opt (si_media_content content)) then None
      else Some {|
        id := "smithsonian:" +:+ si_id row;
        u := JS.to_string (si_media_content content);
        k := "culture";
        ttl := truncate (Some (JS.or_else (si_title content) "Smithsonian Item")) 50;
        desc := truncate (Some (JS.or_else (si_notes content) "")) 80;
        src := "Smithsonian";
        lic := License.CC0;
        att := "";
        link := JS.or_else (si_guid content) "https://www.si.edu/openaccess";
        safe := basicSafetyCheck (Some (JS.or_else (si_title content) ""))
      |}
  end.

(** [apiKey] is the environment's [SMITHSONIAN_API_KEY]; the payload is
    [data.response?.rows]. *)
Definition fetchSmithsonian (apiKey : option string)
    (answer : response (option (list si_row))) (limit : Z)
    : list LicensedCandidate :=
  if negb (JS.truthy_opt apiKey) then []
  else match answer with
       | ok rows => for_of smithsonian_candidate (default [] rows) []
       | _ => []
       end.

(** *** Europeana *)

(** [eu_edmPreview] is [item.edmPreview?.[0]], and likewise [eu_rights],
    [eu_title], [eu_dcDescription] and [eu_dcCreator]. *)
Record europeana_item : Type := {
  eu_id : string;
  eu_edmPreview : option string;
  eu_rights : option string;
  eu_title : option string;
  eu_dcDescription : option string;
  eu_dcCreator : option string;
  eu_guid : option string
}.

Definition europeana_candidate (item : europeana_item) : option LicensedCandidate :=
  let imageUrl := eu_edmPreview item in
  if negb (JS.truthy_opt imageUrl) then None
  else
    let license := parseEuropeanaRights (eu_rights item) in
    if ((license =? License.UNKNOWN)%string
        || (license =? License.NOT_ALLOWED)%string)%bool
    then None
    else Some {|
      id := "europeana:" +:+ eu_id item;
      u := JS.to_string imageUrl;
      k := "culture";
      ttl := truncate (Some (JS.or_else (eu_title item) "Europeana Item")) 50;
      desc := truncate (Some (JS.or_else (eu_dcDescription item) "")) 80;
      src := "Europeana";
      lic := license;
      att := if ((license =? License.CCBY)%string
                 || (license =? License.CCBYSA)%string)%bool
             then JS.or_else (eu_dcCreator item) "Unknown" +:+ " — "
                  +:+ rightsToString license
             else "";
      link := JS.or_else (eu_guid item)
                ("https://www.europeana.eu/item" +:+ eu_id item);
      safe := basicSafetyCheck
                (Some (JS.or_else (eu_title item) "" +:+ " "
                       +:+ JS.or_else (eu_dcDescription item) ""))
    |}.

(** [apiKey] is the environment's [EUROPEANA_API_KEY]; the payload is
    [data.items]. *)
Definition fetchEuropeana (apiKey : option string)
    (answer : response (option (list europeana_item))) (limit : Z)
    : list LicensedCandidate :=
  if negb (JS.truthy_opt apiKey) then []
  else match answer with
       | ok items => for_of_until limit europeana_candidate (default [] items) []
       | _ => []
       end.

(** *** Unsplash *)

(** [us_regular] is [photo.urls?.regular], and likewise [us_small],
    [us_user_name] ([photo.user?.name]) and [us_html]
    ([photo.links?.html]). *)
Record unsplash_photo : Type := {
  us_id : string;
  us_regular : option string;
  us_small : option string;
  us_description : option string;
  us_alt_description : option string;
  us_user_name : option string;
  us_html : option string
}.

Definition unsplash_candidate (photo : unsplash_photo) : option LicensedCandidate :=
  let imageUrl := JS.or_opt (us_regular photo) (us_small photo) in
  if negb (JS.truthy_opt imageUrl) then None
  else Some {|
    id := "unsplash:" +:+ us_id photo;
    u := JS.to_string imageUrl;
    k := "photo";
    ttl := truncate
             (Some (JS.or_else
                      (JS.or_opt (us_description photo) (us_alt_description photo))
                      "Unsplash Photo")) 50;
    desc := truncate (Some ("Photo by " +:+ JS.or_else (us_user_name photo) "Unknown")) 60;
    src := "Unsplash";
    lic := License.CC0;
    att := "Photo by " +:+ JS.or_else (us_user_name photo) "Unknown" +:+ " on Unsplash";
    link := JS.or_else (us_html photo) ("https://unsplash.com/photos/" +:+ us_id photo);
    safe := basicSafetyCheck
              (Some (JS.or_else (us_description photo) "" +:+ " "
                     +:+ JS.or_else (us_alt_description photo) ""))
  |}.

(** [accessKey] is the environment's [UNSPLASH_ACCESS_KEY]. *)
Definition fetchUnsplash (accessKey : option string)
    (answer : response (list unsplash_photo)) (limit : Z)
    : list LicensedCandidate :=
  if negb (JS.truthy_opt accessKey) then []
  else match answer with
       | ok photos => for_of unsplash_candidate photos []
       | _ => []
       end.

(** *** Hacker News *)

Record hn_story : Type := {
  hn_id : Z;
  hn_type : string;
  hn_url : option string;
  hn_title : option string;
  hn_score : Z;
  hn_descendants : option Z
}.

(** The body of the inner [try]; the item service answers [null]
    ([None]) for an unknown id. *)
Definition hn_candidate (item : Z -> response (option hn_story)) (id_ : Z)
    : option LicensedCandidate :=
  match item id_ with
  | ok (Some story) =>
      if (negb (hn_type story =? "story")%string
          || negb (JS.truthy_opt (hn_url story)))%bool
      then None
      else Some {|
        id := "hn:" +:+ pretty (hn_id story);
        u := "";
        k := "link";
        ttl := truncate (hn_title story) 60;
        desc := truncate
                  (Some (pretty (hn_score story) +:+ " points · "
                         +:+ pretty (default 0 (hn_descendants story))
                         +:+ " comments")) 40;
        src := "Hacker News";
        lic := License.UNKNOWN;
        att := "";
        link := JS.to_string (hn_url story);
        safe := basicSafetyCheck (hn_title story)
      |}
  | _ => None
  end.

Definition fetchHackerNews (topstories : response (list Z))
    (item : Z -> response (option hn_story)) (limit : Z)
    : list LicensedCandidate :=
  match topstories with
  | ok storyIds => for_of (hn_candidate item) (JS.slice0 storyIds limit) []
  | _ => []
  end.

(** *** Wikimedia Commons *)

(** [wc_LicenseShortName] is [extmetadata.LicenseShortName?.value] of
    [imageinfo.extmetadata || {}], and likewise [wc_Artist] and
    [wc_ImageDescription]. *)
Record wc_imageinfo : Type := {
  wc_thumburl : option string;
  wc_url : string;
  wc_descriptionurl : option string;
  wc_LicenseShortName : option string;
  wc_Artist : option string;
  wc_ImageDescription : option string
}.

(** [wc_info] is [page.imageinfo?.[0]]. *)
Record wc_page : Type := {
  wc_pageid : Z;
  wc_title : string;
  wc_info : option wc_imageinfo
}.

Definition wikimedia_candidate (page : wc_page) : option LicensedCandidate :=
  match wc_info page with
  | None => None
  | Some imageinfo =>
      let license := parseWikimediaLicense (wc_LicenseShortName imageinfo) in
      if negb (JS.array_includes RENDER_ALLOWED_LICENSES license) then None
      else
        let artist := JS.or_else (JS.strip_tags <$> wc_Artist imageinfo) "Unknown" in
        Some {|
          id := "wc:" +:+ pretty (wc_pageid page);
          u := JS.or_else (wc_thumburl imageinfo) (wc_url imageinfo);
          k := "photo";
          ttl := truncate
                   (Some (JS.strip_extension (JS.remove_first "File:" (wc_title page))))
                   50;
          desc := truncate
                    (Some (JS.or_else (JS.strip_tags <$> wc_ImageDescription imageinfo) ""))
                    80;
          src := "Wikimedia Commons";
          lic := license;
          att := if JS.array_includes ATTRIBUTION_REQUIRED license
                 then truncate (Some artist) 40 +:+ " — " +:+ rightsToString license
                 else "";
          link := JS.or_else (wc_descriptionurl imageinfo)
                    ("https://commons.wikimedia.org/wiki/"
                     +:+ JS.encodeURIComponent (wc_title page));
          safe := basicSafetyCheck
                    (Some (wc_title page +:+ " "
                           +:+ JS.or_else (wc_ImageDescription imageinfo) ""))
        |}
  end.

(** The payload is [Object.values(data.query?.pages || {})]. *)
Definition fetchWikimediaCommons (answer : response (option (list wc_page)))
    (limit : Z) : list LicensedCandidate :=
  match answer with
  | ok pages => for_of_until limit wikimedia_candidate (default [] pages) []
  | _ => []
  end.

(** ** The shuffle *)

(** [Math.floor(r * n)] for a value [r] of [Math.random()] and an
    integer [n]; the product is taken exactly. *)
Definition floor_times (r : Q) (n : Z) : Z := Qfloor (r * inject_Z n).

(** The destructuring assignment
    [[a[i], a[j]] = [a[j], a[i]]]: both reads happen first, then [a[i]]
    and [a[j]] are written in that order.  The writes are modelled for
    indices inside the array, where the loop of [shuffle] keeps them
    ([shuffle_stays_inside] below); outside, the array is left as it
    is. *)
Definition swap {A} (a : list A) (i j : nat) : list A :=
  match a !! i, a !! j with
  | Some x, Some y => <[j:=x]> (<[i:=y]> a)
  | _, _ => a
  end.

(** The [for] loop of [shuffle], from index [i] down to 1.  [rand] is
    the sequence of values that successive calls of [Math.random()]
    return and [n] the number of calls made so far. *)
Fixpoint shuffle_loop {A} (rand : nat -> Q) (n : nat) (i : nat)
    (shuffled : list A) : list A * nat :=
  match i with
  | O => (shuffled, n)
  | S i' =>
      let j := Z.to_nat (floor_times (rand n) (Z.of_nat i + 1)) in
      shuffle_loop rand (S n) i' (swap shuffled i j)
  end.

Definition shuffle {A} (rand : nat -> Q) (n : nat) (array : list A)
    : list A * nat :=
  shuffle_loop rand n (length array - 1)%nat array.

(** The values [Math.random()] can return: every draw lies in [0, 1). *)
Definition unit_draws (rand : nat -> Q) : Prop :=
  forall n, (0 <= rand n)%Q /\ (rand n < 1)%Q.

(** Every iteration of the loop of [shuffle], from index [i] down, reads
    and writes inside an array of length [len]. *)
Fixpoint stays_inside (rand : nat -> Q) (n : nat) (i : nat) (len : nat) : bool :=
  match i with
  | O => true
  | S i' =>
      let j := Z.to_nat (floor_times (rand n) (Z.of_nat i + 1)) in
      ((i <? len)%nat && (j <? len)%nat && stays_inside rand (S n) i' len)%bool
  end.

(** ** The harvest *)

(** The nine source adapters. *)
Inductive fetcher : Type :=
| NASAAPOD | NASAEPIC | MetMuseum | ArtInstituteChicago | Smithsonian
| Europeana | WikimediaCommons | Unsplash | HackerNews.

(** What the promise of each adapter settles to, given the limit it is
    called with. *)
Definition adapters : Type :=
  fetcher -> Z -> JS.settled (list LicensedCandidate).

Record harvest : Type := mkHarvest {
  img : list LicensedCandidate;
  lnk : list LicensedCandidate
}.

(** The calls pushed on [fetchers], in order, with their arguments. *)
Definition selected (surfaces : list string) (limit : Z) : list (fetcher * Z) :=
  let on (s : string) :=
    (JS.array_includes surfaces s || JS.array_includes surfaces "all")%bool in
  (if on "space" then [(NASAAPOD, limit); (NASAEPIC, JS.ceil_half limit)] else [])
  ++ (if on "art" then [(MetMuseum, limit); (ArtInstituteChicago, limit)] else [])
  ++ (if on "culture"
      then [(Smithsonian, limit); (Europeana, limit); (WikimediaCommons, limit)]
      else [])
  ++ (if on "photo" then [(Unsplash, limit)] else [])
  ++ (if on "tech" then [(HackerNews, limit)] else []).

(** The required-fields test: true when the candidate is malformed. *)
Definition malformed (c : LicensedCandidate) : bool :=
  (negb (JS.truthy (id c)) || negb (JS.truthy (u c)) || negb (JS.truthy (k c))
   || negb (JS.truthy (ttl c)) || negb (JS.truthy (src c))
   || negb (JS.truthy (lic c)))%bool.

(** The link-bucket test of the partition. *)
Definition to_links (c : LicensedCandidate) : bool :=
  ((k c =? "link")%string
   || negb (JS.array_includes RENDER_ALLOWED_LICENSES (lic c)))%bool.

(** The body of the inner loop, on the pair [(allImages, allLinks)]. *)
Definition place (acc : list LicensedCandidate * list LicensedCandidate)
    (candidate : LicensedCandidate)
    : list LicensedCandidate * list LicensedCandidate :=
  if negb (safe candidate) then acc
  else if malformed candidate then acc
  else if to_links candidate then (acc.1, acc.2 ++ [candidate])
  else (acc.1 ++ [candidate], acc.2).

(** The body of the outer loop: a rejected result contributes nothing. *)
Definition collect_result
    (acc : list LicensedCandidate * list LicensedCandidate)
    (result : JS.settled (list LicensedCandidate))
    : list LicensedCandidate * list LicensedCandidate :=
  match result with
  | JS.fulfilled value => fold_left place value acc
  | JS.rejected _ => acc
  end.

Definition collect (results : list (JS.settled (list LicensedCandidate)))
    : list LicensedCandidate * list LicensedCandidate :=
  fold_left collect_result results ([], []).

(** The results of [Promise.allSettled(fetchers)]. *)
Definition settle (fs : adapters) (surfaces : list string) (limit : Z)
    : list (JS.settled (list LicensedCandidate)) :=
  map (fun call => fs call.1 call.2) (selected surfaces limit).

Definition harvestCandidates (rand : nat -> Q) (fs : adapters)
    (surfaces : list string) (limit : Z) : JS.settled harvest :=
  let '(allImages, allLinks) := collect (settle fs surfaces limit) in
  let '(shuffledImages, n) := shuffle rand 0%nat allImages in
  let '(shuffledLinks, _) := shuffle rand n allLinks in
  JS.fulfilled {| img := JS.slice0 shuffledImages (limit * 2);
                  lnk := JS.slice0 shuffledLinks limit |}.


(** ** The adapters on their upstreams *)

(** What one harvest finds outside the process: the three API keys of
    the environment and the answer to each request. *)
Record world : Type := {
  SMITHSONIAN_API_KEY : option string;
  EUROPEANA_API_KEY : option string;
  UNSPLASH_ACCESS_KEY : option string;
  apod_answer : response apod_data;
  epic_answer : response (list epic_item);
  met_search_answer : response (option (list Z));
  met_object_answer : Z -> response met_object;
  artic_answer : response artic_data;
  smithsonian_answer : response (option (list si_row));
  europeana_answer : response (option (list europeana_item));
  unsplash_answer : response (list unsplash_photo);
  hn_topstories_answer : response (list Z);
  hn_item_answer : Z -> response (option hn_story);
  wikimedia_answer : response (option (list wc_page))
}.

(** The candidates an adapter returns in a world. *)
Definition candidates_of (w : world) (f : fetcher) (limit : Z) : list LicensedCandidate :=
  match f with
  | NASAAPOD => fetchNASAAPOD (apod_answer w) limit
  | NASAEPIC => fetchNASAEPIC (epic_answer w) limit
  | MetMuseum => fetchMetMuseum (met_search_answer w) (met_object_answer w) limit
  | ArtInstituteChicago => fetchArtInstituteChicago (artic_answer w) limit
  | Smithsonian => fetchSmithsonian (SMITHSONIAN_API_KEY w) (smithsonian_answer w) limit
  | Europeana => fetchEuropeana (EUROPEANA_API_KEY w) (europeana_answer w) limit
  | WikimediaCommons => fetchWikimediaCommons (wikimedia_answer w) limit
  | Unsplash => fetchUnsplash (UNSPLASH_ACCESS_KEY w) (unsplash_answer w) limit
  | HackerNews => fetchHackerNews (hn_topstories_answer w) (hn_item_answer w) limit
  end.

(** The adapters of the source: each catches its own failures, so its
    promise is always fulfilled. *)
Definition upstream (w : world) : adapters :=
  fun f limit => JS.fulfilled (candidates_of w f limit).

(** ** Notions used by the statements *)

Global Instance fetcher_eq_dec : EqDecision fetcher.
Proof. solve_decision. Defined.

(** The candidate passes the safety and required-fields tests. *)
Definition valid (c : LicensedCandidate) : bool :=
  (safe c && negb (malformed c))%bool.

(** The pair [(allImages, allLinks)] before shuffling and truncation. *)
Definition pool (fs : adapters) (surfaces : list string) (limit : Z)
    : list LicensedCandidate * list LicensedCandidate :=
  collect (settle fs surfaces limit).

(** [fs] with the adapter [f] settling the way [outcome] says. *)
Definition with_outcome (fs : adapters) (f : fetcher)
    (outcome : JS.settled (list LicensedCandidate)) : adapters :=
  fun g limit => if decide (g = f) then outcome else fs g limit.

(** What the settled results contribute to the two buckets together. *)
Definition contributions (results : list (JS.settled (list LicensedCandidate)))
    : list LicensedCandidate :=
  flat_map (fun result => match result with
                          | JS.fulfilled value => value
                          | JS.rejected _ => []
                          end) results.

(** The candidate carries a credit when its license requires one. *)
Definition credited (c : LicensedCandidate) : Prop :=
  In (lic c) ATTRIBUTION_REQUIRED -> att c <> "".

(** ** Concrete inputs *)

(** [Math.random()] returning one half at every call. *)
Definition always_half : nat -> Q := fun _ => 1 # 2.

(** Five stories as the item service of Hacker News answers them. *)
Definition story (n : Z) : hn_story := {|
  hn_id := n;
  hn_type := "story";
  hn_url := Some ("https://example.org/" +:+ pretty n);
  hn_title := Some ("Story " +:+ pretty n);
  hn_score := 10 * n;
  hn_descendants := Some n
|}.

Definition hacker_news_world : world := {|
  SMITHSONIAN_API_KEY := None;
  EUROPEANA_API_KEY := None;
  UNSPLASH_ACCESS_KEY := None;
  apod_answer := network_error;
  epic_answer := http_error;
  met_search_answer := ok None;
  met_object_answer := fun _ => http_error;
  artic_answer := network_error;
  smithsonian_answer := network_error;
  europeana_answer := network_error;
  unsplash_answer := network_error;
  hn_topstories_answer := ok [1; 2; 3; 4; 5; 6; 7];
  hn_item_answer := fun n => ok (Some (story n));
  wikimedia_answer := network_error
|}.

(** A world in which NASA APOD answers with one credited picture. *)
Definition apod_world : world := {|
  SMITHSONIAN_API_KEY := None;
  EUROPEANA_API_KEY := None;
  UNSPLASH_ACCESS_KEY := None;
  apod_answer :=
    ok (apod_one {| apod_date := "2024-01-05";
                    apod_url := "https://apod.nasa.gov/apod/image/2401/m31.jpg";
                    apod_media_type := "image";
                    apod_title := Some "Andromeda";
                    apod_explanation := Some "The nearest large galaxy.";
                    apod_copyright := Some "A. Stronomer" |});
  epic_answer := http_error;
  met_search_answer := ok None;
  met_object_answer := fun _ => http_error;
  artic_answer := network_error;
  smithsonian_answer := network_error;
  europeana_answer := network_error;
  unsplash_answer := network_error;
  hn_topstories_answer := network_error;
  hn_item_answer := fun _ => network_error;
  wikimedia_answer := network_error
|}.

Definition apod_sample : LicensedCandidate := {|
  id := "nasa:apod:2024-01-05";
  u := "https://apod.nasa.gov/apod/image/2401/m31.jpg";
  k := "space";
  ttl := "Andromeda";
  desc := "The nearest large galaxy.";
  src := "NASA APOD";
  lic := License.NASA_PD;
  att := "© A. Stronomer — NASA APOD";
  link := "https://apod.nasa.gov/apod/ap240105.html";
  safe := true
|}.

(** A well-formed image candidate and a link candidate with a thumbnail. *)
Definition sample_image (n : Z) : LicensedCandidate := {|
  id := "met:" +:+ pretty n;
  u := "https://images.example.org/" +:+ pretty n +:+ ".jpg";
  k := "art";
  ttl := "Object " +:+ pretty n;
  desc := "";
  src := "The Met Museum";
  lic := License.CC0;
  att := "";
  link := "https://example.org/object";
  safe := true
|}.

Definition sample_link (n : Z) : LicensedCandidate := {|
  id := "hn:" +:+ pretty n;
  u := "https://images.example.org/thumb.png";
  k := "link";
  ttl := "Story " +:+ pretty n;
  desc := "";
  src := "Hacker News";
  lic := License.UNKNOWN;
  att := "";
  link := "https://example.org/story";
  safe := true
|}.

(** Mocked adapters: the two museums answer with well-formed images, the
    discussion site with links that carry a thumbnail, NASA APOD rejects
    and the others are fulfilled with nothing. *)
Definition mock_adapters : adapters :=
  fun f limit =>
    match f with
    | MetMuseum => JS.fulfilled (map sample_image [1; 2; 3])
    | ArtInstituteChicago => JS.fulfilled (map sample_image [4; 5])
    | HackerNews => JS.fulfilled (map sample_link [1; 2; 3])
    | NASAAPOD => JS.rejected "TypeError"
    | _ => JS.fulfilled []
    end.


(** ** Further notions used by the statements *)

(** The two shapes an adapter gives a candidate: a link of the
    discussion site, without a picture and without a license, or a
    picture of one of the five image kinds under a render-allowed
    license. *)
Definition link_shaped (c : LicensedCandidate) : Prop :=
  k c = "link" /\ lic c = License.UNKNOWN /\ u c = ""
  /\ src c = "Hacker News".

Definition image_shaped (c : LicensedCandidate) : Prop :=
  In (k c) ["space"; "earth"; "art"; "culture"; "photo"]
  /\ In (lic c) RENDER_ALLOWED_LICENSES.

Definition emitted_shape (f : fetcher) (c : LicensedCandidate) : Prop :=
  id c <> "" /\ src c <> ""
  /\ match f with
     | HackerNews => link_shaped c
     | _ => image_shaped c
     end.

(** The answer carries no payload. *)
Definition failed {A} (answer : response A) : Prop :=
  match answer with
  | ok _ => False
  | _ => True
  end.

(** Every adapter meets a failing request in the world: its first
    request fails or, for the two adapters that ask item by item, every
    request for an item does. *)
Definition all_down (w : world) : Prop :=
  failed (apod_answer w) /\ failed (epic_answer w)
  /\ (failed (met_search_answer w) \/ forall n, failed (met_object_answer w n))
  /\ failed (artic_answer w)
  /\ failed (smithsonian_answer w) /\ failed (europeana_answer w)
  /\ failed (unsplash_answer w)
  /\ (failed (hn_topstories_answer w) \/ forall n, failed (hn_item_answer w n))
  /\ failed (wikimedia_answer w).

(** The surface tags the harvest knows. *)
Definition surface_tags : list string :=
  ["space"; "art"; "culture"; "photo"; "tech"; "all"].

(** The adapters that cut their result down to the limit themselves. *)
Definition caps_itself (f : fetcher) : bool :=
  match f with
  | NASAAPOD | NASAEPIC | MetMuseum | Europeana | WikimediaCommons
  | HackerNews => true
  | ArtInstituteChicago | Smithsonian | Unsplash => false
  end.

(** A world in which nothing answers. *)
Definition dark_world : world := {|
  SMITHSONIAN_API_KEY := Some "key";
  EUROPEANA_API_KEY := Some "key";
  UNSPLASH_ACCESS_KEY := Some "key";
  apod_answer := network_error;
  epic_answer := http_error;
  met_search_answer := network_error;
  met_object_answer := fun _ => http_error;
  artic_answer := http_error;
  smithsonian_answer := network_error;
  europeana_answer := http_error;
  unsplash_answer := network_error;
  hn_topstories_answer := http_error;
  hn_item_answer := fun _ => network_error;
  wikimedia_answer := network_error
|}.

(** The text has ASCII characters only: its bytes are its UTF-16 code
    units. *)
Fixpoint plain (s : string) : bool :=
  match s with
  | EmptyString => true
  | String c r => ((nat_of_ascii c <? 128)%nat && plain r)%bool
  end.

(** The text has no ASCII character. *)
Fixpoint high (s : string) : bool :=
  match s with
  | EmptyString => true
  | String c r => ((128 <=? nat_of_ascii c)%nat && high r)%bool
  end.

(** The [length] of the JavaScript string that a UTF-8 byte string
    encodes, in UTF-16 code units: one for an ASCII byte and for the lead
    byte of a sequence of two or three bytes, two for the lead byte of a
    sequence of four, none for a continuation byte. *)
Fixpoint utf16_length (s : string) : nat :=
  match s with
  | EmptyString => 0
  | String c r =>
      let n := nat_of_ascii c in
      ((if (n <? 128)%nat then 1
        else if (n <? 192)%nat then 0
        else if (n <? 240)%nat then 1 else 2) + utf16_length r)%nat
  end.

(** The adapters that run the safety filter on the text their title is
    cut from. *)
Definition checks_title (f : fetcher) : bool :=
  match f with
  | NASAEPIC | WikimediaCommons => false
  | _ => true
  end.

(** The candidate is flagged safe only if its title passes the filter. *)
Definition safe_title (c : LicensedCandidate) : Prop :=
  safe c = true -> basicSafetyCheck (Some (ttl c)) = true.

(** The value of [Math.random()] for which
    [Math.floor(Math.random() * (i + 1))] is [j]. *)
Definition draw_for (j i : nat) : Q := Z.of_nat j # Pos.of_succ_nat i.

(** ** The candidates endpoint

    The handler of [GET /api/candidates] in the first half of
    [src/index.js].  The two query parameters are strings or absent. *)

(** [s.split(c)] for a separator of one character. *)
Fixpoint split (sep : ascii) (s : string) : list string :=
  match s with
  | EmptyString => [EmptyString]
  | String c r =>
      if Ascii.eqb c sep then EmptyString :: split sep r
      else match split sep r with
           | first :: rest => String c first :: rest
           | [] => [String c EmptyString]
           end
  end.

(** The value of a character as a digit in the radix, if it is one. *)
Definition digit_value (radix : Z) (c : ascii) : option Z :=
  let n := Z.of_nat (nat_of_ascii c) in
  let value :=
    if ((48 <=? n) && (n <=? 57))%bool then Some (n - 48)
    else if ((97 <=? n) && (n <=? 122))%bool then Some (n - 87)
    else if ((65 <=? n) && (n <=? 90))%bool then Some (n - 55)
    else None in
  match value with
  | Some d => if d <? radix then Some d else None
  | None => None
  end.

(** The number read from the longest prefix of digits; [acc] is the
    number read so far, [None] when no digit was read. *)
Fixpoint parse_digits (radix : Z) (acc : option Z) (s : string) : option Z :=
  match s with
  | EmptyString => acc
  | String c r =>
      match digit_value radix c with
      | Some d =>
          parse_digits radix
            (Some (match acc with Some a => a * radix + d | None => d end)) r
      | None => acc
      end
  end.

(** [parseInt(input)] without a radix, [None] standing for [NaN]: leading
    white space is skipped, one sign is read, a prefix [0x] or [0X]
    switches to radix 16, and the digits up to the first character that
    is not one are read.  The number is exact, as the double is up to
    2^53. *)
Definition parseInt (input : option string) : option Z :=
  let s := JS.trimStart (JS.to_string input) in
  let '(sign, s) :=
    match s with
    | String c r =>
        if Ascii.eqb c "-" then (-1, r)
        else if Ascii.eqb c "+" then (1, r)
        else (1, s)
    | EmptyString => (1, s)
    end in
  let '(radix, s) :=
    match s with
    | String c (String x r) =>
        if (Ascii.eqb c "0" && (Ascii.eqb x "x" || Ascii.eqb x "X"))%bool
        then (16, r) else (10, s)
    | _ => (10, s)
    end in
  option_map (Z.mul sign) (parse_digits radix None s).

(** [Math.min(parseInt(req.query.limit) || 5, 20)]: [NaN] and 0 are
    falsy. *)
Definition candidates_limit (query_limit : option string) : Z :=
  let parsed :=
    match parseInt query_limit with
    | Some n => if n =? 0 then 5 else n
    | None => 5
    end in
  Z.min parsed 20.

(** [req.query.surfaces?.split(',') || ['all']]: the array of a split is
    never empty, so the default is taken for an absent parameter only. *)
Definition candidates_surfaces (query_surfaces : option string) : list string :=
  match query_surfaces with
  | Some s => split "," s
  | None => ["all"]
  end.

Record candidates_body : Type := {
  body_v : Z;
  body_t : string;
  body_img : list LicensedCandidate;
  body_lnk : list LicensedCandidate;
  body_render_allowed : list string;
  body_attribution_required : list string;
  body_ts : string
}.

Inductive http_response : Type :=
| json_ok (body : candidates_body)
| json_error (status : Z) (error message : string).

(** The handler; [now] is the time stamp [new Date().toISOString()]
    gives when the response is built. *)
Definition get_candidates (rand : nat -> Q) (fs : adapters) (now : string)
    (query_surfaces query_limit : option string) : http_response :=
  let surfaces := candidates_surfaces query_surfaces in
  let limit := candidates_limit query_limit in
  match harvestCandidates rand fs surfaces limit with
  | JS.fulfilled candidates =>
      json_ok {| body_v := 1;
                 body_t := "candidates";
                 body_img := img candidates;
                 body_lnk := lnk candidates;
                 body_render_allowed := RENDER_ALLOWED_LICENSES;
                 body_attribution_required := ATTRIBUTION_REQUIRED;
                 body_ts := now |}
  | JS.rejected reason =>
      json_error 500 "Failed to fetch candidates" reason
  end.

(** Adapters that answer with many images. *)
Definition crowded_adapters : adapters :=
  fun f limit =>
    match f with
    | MetMuseum => JS.fulfilled (map sample_image (seqZ 1 50))
    | _ => JS.fulfilled []
    end.

(** ** The sanitizer of card specifications

    [sanitizeCardSpec] of the first half of [src/index.js], on a card
    specification typed after the schema the prompts give: every field
    may be absent. *)

Module Card.

(** The entries of [st], [bg] and [src] and the image reference; their
    fields [v], [t], [id] and [src] are named [sv], [bt], [sid], [iid]
    and [isrc] here, apart from the fields of the card. *)
Record stat : Type := { l : string; sv : string; d : string; n : option string }.
Record badge : Type := { i : string; bt : string }.
Record source : Type := { r : string; sid : string }.
Record image : Type := {
  iid : string;
  u : string;
  cap : option string;
  isrc : option string;
  lic : option string;
  att : option string;
  link : option string
}.

Record CardSpec : Type := {
  v : option Z;
  t : option string;
  k : option string;
  ttl : option string;
  sub : option string;
  img : option image;
  st : option (list stat);
  qt : option string;
  by_ : option string;
  bg : option (list badge);
  src : option (list source)
}.

(** [packet.lim]. *)
Record limits : Type := {
  lim_ttl : Z;
  lim_sub : Z;
  lim_qt : Z;
  lim_st : Z;
  lim_bg : Z
}.

(** [if (s && s.length > lim) s = s.slice(0, lim)] for a string. *)
Definition clamp_string (s : option string) (lim : Z) : option string :=
  match s with
  | Some text =>
      if (JS.truthy text && (Z.of_nat (String.length text) >? lim))%bool
      then Some (JS.str_slice0 text lim)
      else s
  | None => None
  end.

(** The same for an array, which is truthy also when empty. *)
Definition clamp_array {A} (a : option (list A)) (lim : Z) : option (list A) :=
  match a with
  | Some items =>
      if Z.of_nat (length items) >? lim then Some (JS.slice0 items lim) else a
  | None => None
  end.

Definition unsafePatterns : list string :=
  ["you seem"; "i know you"; "your mood"; "your feelings"; "your identity"].

Definition validClasses : list string :=
  ["sig_sum"; "flow_next"; "calm_reset"; "anomaly"; "culture_lens"].

(** The test of the safety loop: some pattern occurs in the quote or in
    the title, lower-cased. *)
Definition personal (qt ttl : option string) : bool :=
  let qtLower := JS.toLowerCase (JS.or_else qt "") in
  let ttlLower := JS.toLowerCase (JS.or_else ttl "") in
  existsb (fun pattern =>
             (JS.includes qtLower pattern || JS.includes ttlLower pattern)%bool)
    unsafePatterns.

Definition sanitizeCardSpec (spec : CardSpec) (lim : limits) : CardSpec :=
  let ttl1 := clamp_string (ttl spec) (lim_ttl lim) in
  let sub1 := clamp_string (sub spec) (lim_sub lim) in
  let qt1 := clamp_string (qt spec) (lim_qt lim) in
  let st1 := clamp_array (st spec) (lim_st lim) in
  let bg1 := clamp_array (bg spec) (lim_bg lim) in
  let qt2 := if personal qt1 ttl1 then Some "SIGNALS NOTED. CARRY ON." else qt1 in
  let k1 :=
    match k spec with
    | Some class => if JS.array_includes validClasses class then Some class
                    else Some "sig_sum"
    | None => Some "sig_sum"
    end in
  {| v := Some 1;
     t := Some "card";
     k := k1;
     ttl := ttl1;
     sub := sub1;
     img := img spec;
     st := st1;
     qt := qt2;
     by_ := Some (JS.or_else (by_ spec) "SignalEngine");
     bg := bg1;
     src := Some (default [] (src spec)) |}.

(** The string, when present, has at most [lim] characters. *)
Definition within (s : option string) (lim : Z) : Prop :=
  match s with
  | Some text => Z.of_nat (String.length text) <= lim
  | None => True
  end.

(** The array, when present, has at most [lim] entries. *)
Definition holds_at_most {A} (a : option (list A)) (lim : Z) : Prop :=
  match a with
  | Some items => Z.of_nat (length items) <= lim
  | None => True
  end.

(** No limit is negative. *)
Definition sound (lim : limits) : Prop :=
  0 <= lim_ttl lim /\ 0 <= lim_sub lim /\ 0 <= lim_qt lim
  /\ 0 <= lim_st lim /\ 0 <= lim_bg lim.

(** A card a model may answer with, and the limits of a packet. *)
Definition sample_spec : CardSpec := {|
  v := None;
  t := Some "note";
  k := Some "horoscope";
  ttl := Some "You seem tired of the markets today";
  sub := Some "A longer subtitle than the packet allows for";
  img := None;
  st := Some [ {| l := "BTC"; sv := "+2.0%"; d := "up"; n := None |};
               {| l := "ETH"; sv := "-1.0%"; d := "dn"; n := None |};
               {| l := "SOL"; sv := "+0.3%"; d := "up"; n := None |} ];
  qt := Some "The stars align for you";
  by_ := None;
  bg := None;
  src := None
|}.

Definition sample_limits : limits := {|
  lim_ttl := 20; lim_sub := 30; lim_qt := 40; lim_st := 2; lim_bg := 3
|}.

Definition tight_limits : limits := {|
  lim_ttl := 20; lim_sub := 30; lim_qt := 10; lim_st := 2; lim_bg := 3
|}.

End Card.

(** A card whose quote alone is personal. *)
Definition personal_quote_spec : Card.CardSpec := {|
  Card.v := Some 1;
  Card.t := Some "card";
  Card.k := Some "calm_reset";
  Card.ttl := Some "MOMENT OF CALM";
  Card.sub := None;
  Card.img := None;
  Card.st := Some [];
  Card.qt := Some "I know you like this";
  Card.by_ := Some "SignalEngine";
  Card.bg := Some [];
  Card.src := Some []
|}.

(** ** The icon of a badge *)

Definition iconForTag (tag : string) : string :=
  let lower := JS.toLowerCase tag in
  if (JS.includes lower "calm" || JS.includes lower "settle")%bool then "leaf"
  else if (JS.includes lower "active" || JS.includes lower "system")%bool then "bolt"
  else if (JS.includes lower "morning" || JS.includes lower "sun")%bool then "sun"
  else if (JS.includes lower "evening" || JS.includes lower "night")%bool then "moon"
  else if JS.includes lower "focus" then "target"
  else "chart".

(** ** What a harvest is expected to hold

    A second account of the harvest, read off the statements of
    [harvestCandidates] one by one and not off its accumulators: which
    adapters a list of surfaces asks for and with which argument, what
    the asked adapters offer, and which offered candidates belong in
    which bucket.  The results of [harvestCandidates] are compared with
    it. *)

Definition all_fetchers : list fetcher :=
  [NASAAPOD; NASAEPIC; MetMuseum; ArtInstituteChicago; Smithsonian;
   Europeana; WikimediaCommons; Unsplash; HackerNews].

(** The surface tag under which an adapter is pushed on [fetchers]. *)
Definition surface_of (f : fetcher) : string :=
  match f with
  | NASAAPOD | NASAEPIC => "space"
  | MetMuseum | ArtInstituteChicago => "art"
  | Smithsonian | Europeana | WikimediaCommons => "culture"
  | Unsplash => "photo"
  | HackerNews => "tech"
  end.

(** The argument an adapter is called with: NASA EPIC gets half the
    limit, rounded up, the others the limit. *)
Definition argument_of (f : fetcher) (limit : Z) : Z :=
  match f with
  | NASAEPIC => JS.ceil_half limit
  | _ => limit
  end.


Definition asked_b (surfaces : list string) (f : fetcher) : bool :=
  (existsb (String.eqb (surface_of f)) surfaces
   || existsb (String.eqb "all") surfaces)%bool.

(** The candidates of the asked adapters whose promise is fulfilled, in
    the order of the source. *)
Definition offered (fs : adapters) (surfaces : list string) (limit : Z)
    : list LicensedCandidate :=
  flat_map
    (fun f =>
       if asked_b surfaces f
       then match fs f (argument_of f limit) with
            | JS.fulfilled cs => cs
            | JS.rejected _ => []
            end
       else [])
    all_fetchers.

(** The candidate is flagged safe and none of its six required fields
    is empty. *)
Definition passes_checks (c : LicensedCandidate) : bool :=
  (safe c && negb (id c =? "")%string && negb (u c =? "")%string
   && negb (k c =? "")%string && negb (ttl c =? "")%string
   && negb (src c =? "")%string && negb (lic c =? "")%string)%bool.

(** The candidate may be shown as an image: it is no link and its
    license is one of the five render-allowed ones. *)
Definition image_eligible (c : LicensedCandidate) : bool :=
  (negb (k c =? "link")%string
   && existsb (String.eqb (lic c)) ["PD"; "CC0"; "CCBY"; "CCBYSA"; "NASA_PD"])%bool.

Definition expected_images (cs : list LicensedCandidate) : list LicensedCandidate :=
  List.filter (fun c => passes_checks c && image_eligible c)%bool cs.

Definition expected_links (cs : list LicensedCandidate) : list LicensedCandidate :=
  List.filter (fun c => passes_checks c && negb (image_eligible c))%bool cs.



(** * Properties *)

(** ** JavaScript values *)

Lemma truthy_nonempty (s : string) : JS.truthy s = true <-> s <> "".
Proof. destruct s; simpl; split; intros; congruence. Qed.

Lemma array_includes_In (l : list string) (x : string) :
  JS.array_includes l x = true <-> In x l.
Proof.
  unfold JS.array_includes. rewrite existsb_exists. split.
  - intros (y & Hy & Heq). apply String.eqb_eq in Heq. now subst.
  - intros Hx. exists x. split; [assumption | apply String.eqb_refl].
Qed.

Lemma array_includes_not_In (l : list string) (x : string) :
  JS.array_includes l x = false <-> ~ In x l.
Proof.
  rewrite <- array_includes_In. destruct (JS.array_includes l x); split; congruence.
Qed.

Lemma slice0_length {A} (a : list A) (e : Z) :
  0 <= e -> Z.of_nat (length (JS.slice0 a e)) <= e.
Proof.
  intros He. unfold JS.slice0.
  destruct (Z.ltb_spec e 0); [lia |].
  rewrite length_take. lia.
Qed.

Lemma slice0_In {A} (a : list A) (e : Z) (x : A) :
  In x (JS.slice0 a e) -> In x a.
Proof.
  unfold JS.slice0. intros Hx.
  apply list_elem_of_In. apply list_elem_of_In in Hx.
  eapply subseteq_take; eassumption.
Qed.

Lemma slice0_all {A} (a : list A) (e : Z) :
  Z.of_nat (length a) <= e -> JS.slice0 a e = a.
Proof.
  intros He. unfold JS.slice0.
  destruct (Z.ltb_spec e 0); [lia |].
  apply take_ge. lia.
Qed.

Lemma slice0_zero {A} (a : list A) : JS.slice0 a 0 = [].
Proof. unfold JS.slice0. simpl. now rewrite Z.min_l by lia. Qed.

(** The helpers on the inputs the adapters meet. *)

Example trim_spaces : JS.trim "  a b  " = "a b".
Proof. reflexivity. Qed.

Example strip_tags_markup : JS.strip_tags "<a href='x'>Jane</a> Doe <" = "Jane Doe <".
Proof. reflexivity. Qed.

Example strip_extension_last : JS.strip_extension "Moon.over.sea.jpg" = "Moon.over.sea".
Proof. reflexivity. Qed.

Example remove_first_prefix : JS.remove_first "File:" "File:Moon.jpg" = "Moon.jpg".
Proof. reflexivity. Qed.

Example encode_title : JS.encodeURIComponent "File:A b/c.jpg" = "File%3AA%20b%2Fc.jpg".
Proof. reflexivity. Qed.

Example truncate_long : truncate (Some " abcdefghij ") 5 = "abcd…".
Proof. reflexivity. Qed.

Example truncate_absent : truncate None 50 = "".
Proof. reflexivity. Qed.

Example safety_blocklist :
  basicSafetyCheck (Some "A NUDE study") = false
  /\ basicSafetyCheck (Some "A study") = true
  /\ basicSafetyCheck None = true.
Proof. repeat split. Qed.

Example ceil_half_values :
  JS.ceil_half 5 = 3 /\ JS.ceil_half 4 = 2 /\ JS.ceil_half (-5) = -2.
Proof. repeat split. Qed.

Example slice0_values :
  JS.slice0 [1; 2; 3; 4; 5] 2 = [1; 2]
  /\ JS.slice0 [1; 2; 3; 4; 5] (-2) = [1; 2; 3]
  /\ JS.slice0 [1; 2; 3] 10 = [1; 2; 3]
  /\ JS.slice0 [1; 2; 3] (-7) = [].
Proof. repeat split. Qed.

Example europeana_rights_values :
  parseEuropeanaRights (Some "http://creativecommons.org/publicdomain/mark/1.0/")
  = License.CC0
  /\ parseEuropeanaRights (Some "http://creativecommons.org/licenses/by-sa/4.0/")
     = License.CCBYSA
  /\ parseEuropeanaRights (Some "http://creativecommons.org/licenses/by/4.0/")
     = License.CCBY
  /\ parseEuropeanaRights (Some "http://rightsstatements.org/vocab/InC/1.0/in-copyright")
     = License.NOT_ALLOWED
  /\ parseEuropeanaRights None = License.UNKNOWN.
Proof. repeat split. Qed.

(** ** The shuffle *)

(** With every draw one half, the loop on five elements swaps positions
    (4, 2), (3, 2), (2, 1) and (1, 1), and makes four draws. *)
Example shuffle_trace :
  shuffle always_half 0 [1; 2; 3; 4; 5] = ([1; 4; 2; 5; 3], 4%nat).
Proof. reflexivity. Qed.

(** A draw in [0, 1) picks an index below [n]. *)
Lemma floor_times_range (r : Q) (n : Z) :
  (0 <= r)%Q -> (r < 1)%Q -> 0 < n -> 0 <= floor_times r n < n.
Proof.
  intros H0 H1 Hn. unfold floor_times. split.
  - change 0 with (Qfloor 0). apply Qfloor_resp_le.
    apply Qmult_le_0_compat; [assumption |].
    change 0%Q with (inject_Z 0). rewrite <- Zle_Qle. lia.
  - rewrite Zlt_Qlt. eapply Qle_lt_trans; [apply Qfloor_le |].
    rewrite <- (Qmult_1_l (inject_Z n)) at 2.
    apply Qmult_lt_compat_r; [| assumption].
    change 0%Q with (inject_Z 0). rewrite <- Zlt_Qlt. lia.
Qed.

Lemma swap_length {A} (a : list A) (i j : nat) : length (swap a i j) = length a.
Proof.
  unfold swap. destruct (a !! i), (a !! j); try reflexivity.
  now rewrite !length_insert.
Qed.

(** Inside the array the model of the swap is the two writes. *)
Lemma swap_in_range {A} (a : list A) (i j : nat) :
  (i < length a)%nat -> (j < length a)%nat ->
  exists x y, a !! i = Some x /\ a !! j = Some y
              /\ swap a i j = <[j:=x]> (<[i:=y]> a).
Proof.
  intros Hi Hj.
  destruct (lookup_lt_is_Some_2 a i Hi) as [x Hx].
  destruct (lookup_lt_is_Some_2 a j Hj) as [y Hy].
  exists x, y. unfold swap. now rewrite Hx, Hy.
Qed.

Lemma swap_Permutation {A} (a : list A) (i j : nat) : swap a i j ≡ₚ a.
Proof.
  unfold swap.
  destruct (a !! i) as [x|] eqn:Hx; [| reflexivity].
  destruct (a !! j) as [y|] eqn:Hy; [| reflexivity].
  now apply Permutation_insert_swap.
Qed.

Lemma shuffle_loop_Permutation {A} (rand : nat -> Q) (i n : nat) (a : list A) :
  (shuffle_loop rand n i a).1 ≡ₚ a.
Proof.
  revert n a. induction i as [| i IH]; intros n a; simpl.
  - reflexivity.
  - rewrite IH. apply swap_Permutation.
Qed.

(** The loop draws once per iteration. *)
Lemma shuffle_loop_draws {A} (rand : nat -> Q) (i n : nat) (a : list A) :
  (shuffle_loop rand n i a).2 = (n + i)%nat.
Proof.
  revert n a. induction i as [| i IH]; intros n a; simpl.
  - lia.
  - rewrite IH. lia.
Qed.

(** The index drawn at step [i] lies between 0 and [i]. *)
Lemma shuffle_draw_in_range (rand : nat -> Q) (n i : nat) :
  unit_draws rand ->
  (Z.to_nat (floor_times (rand n) (Z.of_nat (S i) + 1)) <= S i)%nat.
Proof.
  intros Hr. destruct (Hr n) as [H0 H1].
  pose proof (floor_times_range (rand n) (Z.of_nat (S i) + 1) H0 H1). lia.
Qed.

Lemma loop_stays_inside (rand : nat -> Q) (i n len : nat) :
  unit_draws rand -> (i < len)%nat -> stays_inside rand n i len = true.
Proof.
  intros Hr. revert n. induction i as [| i IH]; intros n Hi; simpl.
  - reflexivity.
  - pose proof (shuffle_draw_in_range rand n i Hr) as Hj.
    rewrite IH by lia.
    rewrite (proj2 (Nat.ltb_lt _ _)) by exact Hi.
    rewrite (proj2 (Nat.ltb_lt _ _)) by (simpl in Hj; lia).
    reflexivity.
Qed.

(** With draws in [0, 1) every swap of [shuffle] exchanges two positions
    of the array: no read or write of the loop leaves it. *)
Lemma shuffle_stays_inside {A} (rand : nat -> Q) (n : nat) (array : list A) :
  unit_draws rand ->
  stays_inside rand n (length array - 1) (length array) = true.
Proof.
  intros Hr. destruct array as [| x array]; simpl; [reflexivity |].
  apply loop_stays_inside; [exact Hr |]. simpl. lia.
Qed.

Lemma shuffle_Permutation {A} (rand : nat -> Q) (n : nat) (array : list A) :
  (shuffle rand n array).1 ≡ₚ array.
Proof. apply shuffle_loop_Permutation. Qed.

(** C9. For every input array and every sequence of random draws,
    [shuffle] returns a permutation of its input: the output has the same
    length and the same multiset of elements as the input. *)
Theorem shuffle_returns_permutation {A} (rand : nat -> Q) (n : nat)
    (array : list A) :
  Permutation (shuffle rand n array).1 array
  /\ length (shuffle rand n array).1 = length array.
Proof.
  split.
  - apply shuffle_Permutation.
  - apply Permutation_length, shuffle_Permutation.
Qed.

(** ** The harvest *)

Lemma place_fold (cs : list LicensedCandidate)
    (acc : list LicensedCandidate * list LicensedCandidate) :
  fold_left place cs acc =
  (acc.1 ++ List.filter (fun c => valid c && negb (to_links c))%bool cs,
   acc.2 ++ List.filter (fun c => valid c && to_links c)%bool cs).
Proof.
  revert acc. induction cs as [| c cs IH]; intros [imgs lnks]; simpl.
  - now rewrite !app_nil_r.
  - rewrite IH. unfold place, valid.
    destruct (safe c); simpl; [| reflexivity].
    destruct (malformed c); simpl; [reflexivity |].
    destruct (to_links c); simpl; now rewrite <- ?app_assoc.
Qed.

Lemma collect_fold (results : list (JS.settled (list LicensedCandidate)))
    (acc : list LicensedCandidate * list LicensedCandidate) :
  fold_left collect_result results acc =
  (acc.1 ++ List.filter (fun c => valid c && negb (to_links c))%bool
              (contributions results),
   acc.2 ++ List.filter (fun c => valid c && to_links c)%bool
              (contributions results)).
Proof.
  revert acc. induction results as [| result results IH]; intros [imgs lnks]; simpl.
  - now rewrite !app_nil_r.
  - rewrite IH. destruct result as [value | reason]; simpl.
    + rewrite place_fold. simpl. now rewrite !List.filter_app, !app_assoc.
    + reflexivity.
Qed.

(** The two buckets before shuffling are the valid contributions, split
    by the link test, in the order of arrival. *)
Lemma collect_spec (results : list (JS.settled (list LicensedCandidate))) :
  collect results =
  (List.filter (fun c => valid c && negb (to_links c))%bool (contributions results),
   List.filter (fun c => valid c && to_links c)%bool (contributions results)).
Proof. unfold collect. now rewrite collect_fold. Qed.

(** [harvestCandidates] has no failing path: it always settles with the
    shuffled and truncated pool. *)
Lemma harvestCandidates_unfold (rand : nat -> Q) (fs : adapters)
    (surfaces : list string) (limit : Z) :
  harvestCandidates rand fs surfaces limit =
  JS.fulfilled
    {| img := JS.slice0 (shuffle rand 0 (pool fs surfaces limit).1).1 (limit * 2);
       lnk := JS.slice0
                (shuffle rand (shuffle rand 0 (pool fs surfaces limit).1).2
                   (pool fs surfaces limit).2).1 limit |}.
Proof.
  unfold harvestCandidates, pool.
  destruct (collect (settle fs surfaces limit)) as [allImages allLinks]. simpl.
  destruct (shuffle rand 0 allImages) as [shuffledImages n]. simpl.
  destruct (shuffle rand n allLinks) as [shuffledLinks n']. reflexivity.
Qed.

Lemma img_in_pool (rand : nat -> Q) (fs : adapters) (surfaces : list string)
    (limit : Z) (r : harvest) (c : LicensedCandidate) :
  harvestCandidates rand fs surfaces limit = JS.fulfilled r ->
  In c (img r) -> In c (pool fs surfaces limit).1.
Proof.
  rewrite harvestCandidates_unfold. intros [= <-]; simpl. intros Hc.
  apply slice0_In in Hc.
  eapply Permutation_in; [apply shuffle_Permutation | exact Hc].
Qed.

Lemma lnk_in_pool (rand : nat -> Q) (fs : adapters) (surfaces : list string)
    (limit : Z) (r : harvest) (c : LicensedCandidate) :
  harvestCandidates rand fs surfaces limit = JS.fulfilled r ->
  In c (lnk r) -> In c (pool fs surfaces limit).2.
Proof.
  rewrite harvestCandidates_unfold. intros [= <-]; simpl. intros Hc.
  apply slice0_In in Hc.
  eapply Permutation_in; [apply shuffle_Permutation | exact Hc].
Qed.

Lemma pool_images (fs : adapters) (surfaces : list string) (limit : Z)
    (c : LicensedCandidate) :
  In c (pool fs surfaces limit).1 <->
  In c (contributions (settle fs surfaces limit))
  /\ valid c = true /\ to_links c = false.
Proof.
  unfold pool. rewrite collect_spec. simpl. rewrite List.filter_In.
  rewrite andb_true_iff, negb_true_iff. tauto.
Qed.

Lemma pool_links (fs : adapters) (surfaces : list string) (limit : Z)
    (c : LicensedCandidate) :
  In c (pool fs surfaces limit).2 <->
  In c (contributions (settle fs surfaces limit))
  /\ valid c = true /\ to_links c = true.
Proof.
  unfold pool. rewrite collect_spec. simpl. rewrite List.filter_In.
  rewrite andb_true_iff. tauto.
Qed.

Lemma to_links_false (c : LicensedCandidate) :
  to_links c = false <-> k c <> "link" /\ In (lic c) RENDER_ALLOWED_LICENSES.
Proof.
  unfold to_links. rewrite orb_false_iff, negb_false_iff.
  rewrite String.eqb_neq, array_includes_In. tauto.
Qed.

Lemma to_links_true (c : LicensedCandidate) :
  to_links c = true <-> k c = "link" \/ ~ In (lic c) RENDER_ALLOWED_LICENSES.
Proof.
  unfold to_links. rewrite orb_true_iff, negb_true_iff.
  rewrite String.eqb_eq, array_includes_not_In. tauto.
Qed.

Lemma valid_spec (c : LicensedCandidate) :
  valid c = true <->
  safe c = true /\ id c <> "" /\ u c <> "" /\ k c <> "" /\ ttl c <> ""
  /\ src c <> "" /\ lic c <> "".
Proof.
  unfold valid, malformed.
  rewrite andb_true_iff, negb_true_iff, !orb_false_iff, !negb_false_iff.
  rewrite !truthy_nonempty. tauto.
Qed.

(** C1. For every call of [harvestCandidates], every candidate placed in
    the images bucket ([img]) has a kind other than ['link'] and a
    license in the render-allowed set, and every candidate placed in the
    links bucket ([lnk]) has kind ['link'] or a license outside the
    render-allowed set. *)
Theorem buckets_respect_partition (rand : nat -> Q) (fs : adapters)
    (surfaces : list string) (limit : Z) :
  exists r,
    harvestCandidates rand fs surfaces limit = JS.fulfilled r
    /\ (forall c, In c (img r) ->
          k c <> "link" /\ In (lic c) RENDER_ALLOWED_LICENSES)
    /\ (forall c, In c (lnk r) ->
          k c = "link" \/ ~ In (lic c) RENDER_ALLOWED_LICENSES).
Proof.
  eexists. split; [apply harvestCandidates_unfold |].
  split; intros c Hc.
  - eapply img_in_pool in Hc; [| apply harvestCandidates_unfold].
    apply pool_images in Hc as (_ & _ & Hl). now apply to_links_false.
  - eapply lnk_in_pool in Hc; [| apply harvestCandidates_unfold].
    apply pool_links in Hc as (_ & _ & Hl). now apply to_links_true.
Qed.

(** C2. For every valid call of [harvestCandidates] with limit [L] (a
    limit that is not negative) and any adapter results, the images
    bucket has length at most [2 * L] and the links bucket has length at
    most [L]. *)
Theorem buckets_are_bounded (rand : nat -> Q) (fs : adapters)
    (surfaces : list string) (limit : Z) :
  0 <= limit ->
  exists r,
    harvestCandidates rand fs surfaces limit = JS.fulfilled r
    /\ Z.of_nat (length (img r)) <= 2 * limit
    /\ Z.of_nat (length (lnk r)) <= limit.
Proof.
  intros Hlimit. eexists. split; [apply harvestCandidates_unfold |].
  simpl. split.
  - rewrite (Z.mul_comm 2). apply slice0_length. lia.
  - now apply slice0_length.
Qed.

Lemma buckets_are_bounded_witness :
  exists r,
    harvestCandidates always_half mock_adapters ["all"] 2 = JS.fulfilled r
    /\ Z.of_nat (length (img r)) <= 2 * 2
    /\ Z.of_nat (length (lnk r)) <= 2.
Proof.
  apply (buckets_are_bounded always_half mock_adapters ["all"] 2). lia.
Defined.

(** The candidates of the discussion-site adapter carry an empty [u],
    and the required-fields test of the harvest drops such a
    candidate. *)
Lemma empty_url_is_dropped
    (acc : list LicensedCandidate * list LicensedCandidate)
    (c : LicensedCandidate) :
  u c = "" -> place acc c = acc.
Proof.
  intros Hu. unfold place, malformed. rewrite Hu. simpl.
  destruct (safe c); simpl; [| reflexivity].
  now rewrite orb_true_r.
Qed.

Lemma hn_candidate_empty_url (item : Z -> response (option hn_story))
    (id_ : Z) (c : LicensedCandidate) :
  hn_candidate item id_ = Some c -> u c = "" /\ k c = "link".
Proof.
  unfold hn_candidate. destruct (item id_) as [| | [s |]]; try discriminate.
  destruct (_ || _)%bool; [discriminate |]. intros [= <-]. now split.
Qed.

(** C3, on the code.  With [surfaces = ['tech']] and [limit = 5], when
    the Hacker News adapter returns five link candidates of the shape it
    builds (kind ['link'], empty [u], license [UNKNOWN], safe, non-empty
    id, title and source), [harvestCandidates] returns an empty links
    bucket and an empty images bucket: the five candidates fail the
    test [!candidate.u] and are skipped as malformed. *)
Theorem tech_harvest_drops_every_link (rand : nat -> Q) :
  length (candidates_of hacker_news_world HackerNews 5) = 5%nat
  /\ Forall (fun c => k c = "link" /\ u c = "" /\ lic c = License.UNKNOWN
                      /\ safe c = true /\ id c <> "" /\ ttl c <> ""
                      /\ src c <> "")
       (candidates_of hacker_news_world HackerNews 5)
  /\ harvestCandidates rand (upstream hacker_news_world) ["tech"] 5
     = JS.fulfilled {| img := []; lnk := [] |}.
Proof.
  split; [reflexivity |]. split; [| reflexivity].
  vm_compute. repeat constructor; discriminate.
Qed.

(** C4, as amended.  [harvestCandidates] validates neither argument: for
    every limit and every list of surfaces the call is fulfilled with a
    result.  With an empty list of surfaces both buckets are empty, and
    with the limit zero both buckets are empty. *)
Theorem invalid_arguments_still_fulfil (rand : nat -> Q) (fs : adapters)
    (surfaces : list string) (limit : Z) :
  exists r,
    harvestCandidates rand fs surfaces limit = JS.fulfilled r
    /\ (surfaces = [] -> img r = [] /\ lnk r = [])
    /\ (limit = 0 -> img r = [] /\ lnk r = []).
Proof.
  eexists. split; [apply harvestCandidates_unfold |]. simpl. split.
  - intros ->.
    change (pool fs [] limit)
      with (@nil LicensedCandidate, @nil LicensedCandidate).
    unfold JS.slice0. simpl. now rewrite !take_nil.
  - intros ->. now rewrite !slice0_zero.
Qed.

(** C4 as stated fails: with an empty list of surfaces, with the limit
    zero and with a negative limit the call is fulfilled with a result
    and is not rejected. *)
Lemma invalid_arguments_counterexample :
  harvestCandidates always_half mock_adapters [] 5
  = JS.fulfilled {| img := []; lnk := [] |}
  /\ harvestCandidates always_half mock_adapters ["tech"] 0
     = JS.fulfilled {| img := []; lnk := [] |}
  /\ harvestCandidates always_half mock_adapters ["tech"] (-1)
     = JS.fulfilled {| img := []; lnk := [sample_link 1; sample_link 3] |}
  /\ (forall reason,
        harvestCandidates always_half mock_adapters [] 5 <> JS.rejected reason).
Proof.
  repeat split; try reflexivity. intros reason. discriminate.
Qed.

(** C5. Every candidate that appears in either output bucket of
    [harvestCandidates] has [safe] true and non-empty [id], [u], [k],
    [ttl], [src] and [lic]; a candidate that fails one of these checks
    appears in neither bucket. *)
Theorem buckets_hold_valid_candidates (rand : nat -> Q) (fs : adapters)
    (surfaces : list string) (limit : Z) :
  exists r,
    harvestCandidates rand fs surfaces limit = JS.fulfilled r
    /\ (forall c, In c (img r) \/ In c (lnk r) ->
          safe c = true /\ id c <> "" /\ u c <> "" /\ k c <> ""
          /\ ttl c <> "" /\ src c <> "" /\ lic c <> "")
    /\ (forall c, safe c = false \/ id c = "" \/ u c = "" \/ k c = ""
                  \/ ttl c = "" \/ src c = "" \/ lic c = "" ->
          ~ In c (img r) /\ ~ In c (lnk r)).
Proof.
  eexists. split; [apply harvestCandidates_unfold |].
  assert (Hvalid : forall c,
    In c (img {| img := JS.slice0 (shuffle rand 0 (pool fs surfaces limit).1).1 (limit * 2);
                 lnk := JS.slice0
                          (shuffle rand (shuffle rand 0 (pool fs surfaces limit).1).2
                             (pool fs surfaces limit).2).1 limit |})
    \/ In c (lnk {| img := JS.slice0 (shuffle rand 0 (pool fs surfaces limit).1).1 (limit * 2);
                    lnk := JS.slice0
                             (shuffle rand (shuffle rand 0 (pool fs surfaces limit).1).2
                                (pool fs surfaces limit).2).1 limit |})
    -> valid c = true).
  { intros c [Hc | Hc].
    - eapply img_in_pool in Hc; [| apply harvestCandidates_unfold].
      now apply pool_images in Hc as (_ & Hv & _).
    - eapply lnk_in_pool in Hc; [| apply harvestCandidates_unfold].
      now apply pool_links in Hc as (_ & Hv & _). }
  split.
  - intros c Hc. apply valid_spec. now apply Hvalid.
  - intros c Hbad.
    assert (Hnot : valid c <> true).
    { rewrite valid_spec. intros (Hs & ? & ? & ? & ? & ? & ?).
      destruct Hbad as [Hf | Hbad]; [congruence |]. tauto. }
    split; intros Hc; apply Hnot, Hvalid; [now left | now right].
Qed.

(** ** Isolation of adapter failures *)



Lemma contributions_other (fs : adapters) (f g : fetcher) (n : Z)
    (outcome : JS.settled (list LicensedCandidate))
    (surfaces : list string) (limit : Z) (cs : list LicensedCandidate)
    (c : LicensedCandidate) :
  In (g, n) (selected surfaces limit) -> g <> f ->
  fs g n = JS.fulfilled cs -> In c cs ->
  In c (contributions (settle (with_outcome fs f outcome) surfaces limit)).
Proof.
  intros Hsel Hne Hfs Hc. unfold contributions, settle.
  apply in_flat_map. exists (JS.fulfilled cs). split; [| exact Hc].
  apply in_map_iff. exists (g, n). split; [| exact Hsel].
  simpl. unfold with_outcome. case_decide; [contradiction | exact Hfs].
Qed.


(** What the settled results contribute is what the asked adapters
    offer. *)
Lemma contributions_offered (fs : adapters) (surfaces : list string) (limit : Z) :
  contributions (settle fs surfaces limit) = offered fs surfaces limit.
Proof.
  unfold contributions, settle, selected, offered, asked_b, all_fetchers,
    JS.array_includes.
  cbn [flat_map surface_of argument_of].
  destruct (existsb (String.eqb "all") surfaces),
    (existsb (String.eqb "space") surfaces),
    (existsb (String.eqb "art") surfaces),
    (existsb (String.eqb "culture") surfaces),
    (existsb (String.eqb "photo") surfaces),
    (existsb (String.eqb "tech") surfaces);
    cbn [orb app map flat_map fst snd]; reflexivity.
Qed.

Lemma checks_agree (c : LicensedCandidate) :
  valid c = passes_checks c /\ to_links c = negb (image_eligible c).
Proof.
  unfold valid, malformed, passes_checks, to_links, image_eligible,
    JS.array_includes, RENDER_ALLOWED_LICENSES.
  split.
  - destruct (safe c), (id c), (u c), (k c), (ttl c), (src c), (lic c); reflexivity.
  - change (existsb (String.eqb (lic c))
              [License.PD; License.CC0; License.CCBY; License.CCBYSA; License.NASA_PD])
      with (existsb (String.eqb (lic c)) ["PD"; "CC0"; "CCBY"; "CCBYSA"; "NASA_PD"]).
    destruct (k c =? "link")%string, (existsb _ _); reflexivity.
Qed.

(** The accumulators of the harvest hold what is expected of them. *)
Lemma pool_expected (fs : adapters) (surfaces : list string) (limit : Z) :
  pool fs surfaces limit
  = (expected_images (offered fs surfaces limit),
     expected_links (offered fs surfaces limit)).
Proof.
  unfold pool. rewrite collect_spec, contributions_offered.
  unfold expected_images, expected_links. f_equal; apply List.filter_ext;
    intros c; destruct (checks_agree c) as [-> ->]; now rewrite ?negb_involutive.
Qed.



(** A bucket is a part of what is expected in it, and all of it when
    that fits the cut. *)
Lemma cut_bucket (rand : nat -> Q) (n : nat) (cs : list LicensedCandidate)
    (e : Z) :
  JS.slice0 (shuffle rand n cs).1 e ⊆+ cs
  /\ (Z.of_nat (length cs) <= e -> JS.slice0 (shuffle rand n cs).1 e ≡ₚ cs)
  /\ (0 <= e ->
      Z.of_nat (length (JS.slice0 (shuffle rand n cs).1 e))
      = Z.min e (Z.of_nat (length cs))).
Proof.
  pose proof (shuffle_Permutation rand n cs) as Hperm.
  pose proof (Permutation_length Hperm) as Hlen.
  split; [| split].
  - transitivity (shuffle rand n cs).1; [apply submseteq_take |].
    now apply Permutation_submseteq.
  - intros Hfit. rewrite slice0_all by lia. exact Hperm.
  - intros He. unfold JS.slice0. destruct (Z.ltb_spec e 0); [lia |].
    rewrite length_take. lia.
Qed.



(** With the museum adapter failing, the two images of the other museum
    and the three links still arrive. *)
Example one_adapter_down :
  harvestCandidates always_half
    (with_outcome mock_adapters MetMuseum (JS.rejected "down")) ["art"; "tech"] 3
  = JS.fulfilled {| img := [sample_image 4; sample_image 5];
                    lnk := [sample_link 1; sample_link 3; sample_link 2] |}.
Proof. reflexivity. Qed.

(** ** The license classifiers *)

(** C8. The classifier of license names maps "Public Domain Mark" to
    [CC0] and "CC BY-SA 4.0" to [CCBYSA], and [CCBYSA] is a member of the
    attribution-required set. *)
Theorem wikimedia_license_scenarios :
  parseWikimediaLicense (Some "Public Domain Mark") = License.CC0
  /\ parseWikimediaLicense (Some "CC BY-SA 4.0") = License.CCBYSA
  /\ In License.CCBYSA ATTRIBUTION_REQUIRED
  /\ JS.array_includes ATTRIBUTION_REQUIRED License.CCBYSA = true.
Proof.
  split; [reflexivity |]. split; [reflexivity |].
  split; [| reflexivity]. right. left. reflexivity.
Qed.

(** C10. For every input (a string, or [undefined]),
    [parseWikimediaLicense] returns one of [CC0], [CCBYSA], [CCBY] and
    [UNKNOWN]; it never returns [NOT_ALLOWED], [PD] or [NASA_PD], and a
    rights string that reserves all rights classifies to [UNKNOWN]. *)
Theorem wikimedia_license_range (licenseString : option string) :
  In (parseWikimediaLicense licenseString)
     [License.CC0; License.CCBYSA; License.CCBY; License.UNKNOWN]
  /\ parseWikimediaLicense licenseString <> License.NOT_ALLOWED
  /\ parseWikimediaLicense licenseString <> License.PD
  /\ parseWikimediaLicense licenseString <> License.NASA_PD
  /\ parseWikimediaLicense (Some "All rights reserved") = License.UNKNOWN.
Proof.
  assert (Hrange : In (parseWikimediaLicense licenseString)
                     [License.CC0; License.CCBYSA; License.CCBY; License.UNKNOWN]).
  { unfold parseWikimediaLicense.
    repeat match goal with
           | |- context [if ?b then _ else _] => destruct b
           end;
      simpl; auto. }
  split; [exact Hrange |].
  simpl in Hrange.
  repeat split; try reflexivity; intros Heq; rewrite Heq in Hrange;
    repeat (destruct Hrange as [Hrange | Hrange]; [discriminate Hrange |]);
    exact Hrange.
Qed.

Lemma europeana_license_range (rightsUrl : option string) :
  In (parseEuropeanaRights rightsUrl)
     [License.CC0; License.CCBYSA; License.CCBY; License.NOT_ALLOWED;
      License.UNKNOWN].
Proof.
  unfold parseEuropeanaRights.
  repeat match goal with
         | |- context [if ?b then _ else _] => destruct b
         end;
    simpl; auto 6.
Qed.

(** ** Attribution *)

Lemma append_nonempty (a b : string) : b <> "" -> a +:+ b <> "".
Proof. destruct a; simpl; [auto | discriminate]. Qed.

Lemma for_of_Forall {I} (P : LicensedCandidate -> Prop)
    (body : I -> option LicensedCandidate) (items : list I)
    (candidates : list LicensedCandidate) :
  (forall item c, body item = Some c -> P c) ->
  Forall P candidates -> Forall P (for_of body items candidates).
Proof.
  intros Hbody. unfold for_of. revert candidates.
  induction items as [| item items IH]; intros candidates Hcs; simpl.
  - exact Hcs.
  - apply IH. destruct (body item) as [c |] eqn:Hc; [| exact Hcs].
    apply Forall_app. split; [exact Hcs |]. constructor; eauto.
Qed.

Lemma for_of_until_Forall {I} (P : LicensedCandidate -> Prop) (limit : Z)
    (body : I -> option LicensedCandidate) (items : list I)
    (candidates : list LicensedCandidate) :
  (forall item c, body item = Some c -> P c) ->
  Forall P candidates -> Forall P (for_of_until limit body items candidates).
Proof.
  intros Hbody. revert candidates.
  induction items as [| item items IH]; intros candidates Hcs; simpl.
  - exact Hcs.
  - destruct (_ >=? _); [exact Hcs |].
    apply IH. destruct (body item) as [c |] eqn:Hc; [| exact Hcs].
    apply Forall_app. split; [exact Hcs |]. constructor; eauto.
Qed.

Ltac not_attribution_required :=
  let H := fresh in
  intros H; simpl in H; exfalso;
  repeat (destruct H as [H | H]; [discriminate H |]); exact H.

Lemma apod_credited (item : apod_item) (c : LicensedCandidate) :
  apod_candidate item = Some c -> credited c.
Proof.
  unfold apod_candidate. destruct (_ =? _)%string; [discriminate |].
  intros [= <-] _. simpl. destruct (JS.truthy_opt _); discriminate.
Qed.

Lemma epic_credited (item : epic_item) (c : LicensedCandidate) :
  epic_candidate item = Some c -> credited c.
Proof. intros [= <-] _. discriminate. Qed.

Lemma met_credited (object : Z -> response met_object) (objectId : Z)
    (c : LicensedCandidate) :
  met_candidate object objectId = Some c -> credited c.
Proof.
  unfold met_candidate. destruct (object objectId); try discriminate.
  destruct (_ || _)%bool; [discriminate |]. intros [= <-].
  unfold credited. not_attribution_required.
Qed.

Lemma artic_credited (iiifBase : string) (artwork : artic_artwork)
    (c : LicensedCandidate) :
  artic_candidate iiifBase artwork = Some c -> credited c.
Proof.
  unfold artic_candidate. destruct (_ || _)%bool; [discriminate |].
  intros [= <-]. unfold credited. not_attribution_required.
Qed.

Lemma smithsonian_credited (row : si_row) (c : LicensedCandidate) :
  smithsonian_candidate row = Some c -> credited c.
Proof.
  unfold smithsonian_candidate. destruct (si_row_content row); [| discriminate].
  destruct (negb _); [discriminate |].
  intros [= <-]. unfold credited. not_attribution_required.
Qed.

Lemma europeana_credited (item : europeana_item) (c : LicensedCandidate) :
  europeana_candidate item = Some c -> credited c.
Proof.
  unfold europeana_candidate. destruct (negb _); [discriminate |].
  destruct (_ || _)%bool; [discriminate |].
  intros [= <-]. unfold credited. simpl.
  pose proof (europeana_license_range (eu_rights item)) as Hrange.
  intros [H | [H | [H | []]]]; rewrite <- H in *; simpl.
  - apply append_nonempty. discriminate.
  - apply append_nonempty. discriminate.
  - exfalso. simpl in Hrange.
    repeat (destruct Hrange as [Hrange | Hrange]; [discriminate Hrange |]).
    exact Hrange.
Qed.

Lemma unsplash_credited (photo : unsplash_photo) (c : LicensedCandidate) :
  unsplash_candidate photo = Some c -> credited c.
Proof.
  unfold unsplash_candidate. destruct (negb _); [discriminate |].
  intros [= <-] _. discriminate.
Qed.

Lemma hn_credited (item : Z -> response (option hn_story)) (id_ : Z)
    (c : LicensedCandidate) :
  hn_candidate item id_ = Some c -> credited c.
Proof.
  unfold hn_candidate. destruct (item id_) as [| | [s |]]; try discriminate.
  destruct (_ || _)%bool; [discriminate |].
  intros [= <-]. unfold credited. not_attribution_required.
Qed.

Lemma wikimedia_credited (page : wc_page) (c : LicensedCandidate) :
  wikimedia_candidate page = Some c -> credited c.
Proof.
  unfold wikimedia_candidate. destruct (wc_info page) as [imageinfo |]; [| discriminate].
  destruct (negb _); [discriminate |].
  intros [= <-]. unfold credited. cbn [lic att]. intros Hreq.
  apply array_includes_In in Hreq.
  match goal with
  | |- (if ?b then _ else _) <> _ => replace b with true by (symmetry; exact Hreq)
  end.
  apply append_nonempty. discriminate.
Qed.

(** C6. For every candidate emitted by any adapter whose license is in
    the attribution-required set, the [att] field is a non-empty
    string. *)
Theorem attribution_is_present (w : world) (f : fetcher) (limit : Z)
    (c : LicensedCandidate) :
  In c (candidates_of w f limit) ->
  In (lic c) ATTRIBUTION_REQUIRED ->
  att c <> "".
Proof.
  intros Hc.
  enough (Hall : Forall credited (candidates_of w f limit))
    by exact (proj1 (List.Forall_forall _ _) Hall c Hc).
  clear c Hc. destruct f; simpl.
  - unfold fetchNASAAPOD. destruct (apod_answer w); try constructor.
    apply for_of_Forall; [apply apod_credited | constructor].
  - unfold fetchNASAEPIC. destruct (epic_answer w); try constructor.
    apply for_of_Forall; [apply epic_credited | constructor].
  - unfold fetchMetMuseum. destruct (met_search_answer w); try constructor.
    apply for_of_until_Forall; [apply met_credited | constructor].
  - unfold fetchArtInstituteChicago. destruct (artic_answer w); try constructor.
    apply for_of_Forall; [apply artic_credited | constructor].
  - unfold fetchSmithsonian. destruct (negb _); [constructor |].
    destruct (smithsonian_answer w); try constructor.
    apply for_of_Forall; [apply smithsonian_credited | constructor].
  - unfold fetchEuropeana. destruct (negb _); [constructor |].
    destruct (europeana_answer w); try constructor.
    apply for_of_until_Forall; [apply europeana_credited | constructor].
  - unfold fetchWikimediaCommons. destruct (wikimedia_answer w); try constructor.
    apply for_of_until_Forall; [apply wikimedia_credited | constructor].
  - unfold fetchUnsplash. destruct (negb _); [constructor |].
    destruct (unsplash_answer w); try constructor.
    apply for_of_Forall; [apply unsplash_credited | constructor].
  - unfold fetchHackerNews. destruct (hn_topstories_answer w); try constructor.
    apply for_of_Forall; [apply hn_credited | constructor].
Qed.

Lemma attribution_is_present_witness :
  In apod_sample (candidates_of apod_world NASAAPOD 5)
  /\ In (lic apod_sample) ATTRIBUTION_REQUIRED
  /\ att apod_sample <> "".
Proof.
  assert (Hin : In apod_sample (candidates_of apod_world NASAAPOD 5))
    by (left; reflexivity).
  assert (Hlic : In (lic apod_sample) ATTRIBUTION_REQUIRED)
    by (right; right; left; reflexivity).
  split; [exact Hin |]. split; [exact Hlic |].
  exact (attribution_is_present apod_world NASAAPOD 5 apod_sample Hin Hlic).
Defined.

(** * Further properties of the harvester *)

(** ** What the adapters emit *)

Ltac shape_of_literal :=
  unfold emitted_shape, link_shaped, image_shaped; cbn [id src k lic u];
  repeat split; try discriminate; simpl; auto 8.

Lemma apod_shape (item : apod_item) (c : LicensedCandidate) :
  apod_candidate item = Some c -> emitted_shape NASAAPOD c.
Proof.
  unfold apod_candidate. destruct (_ =? _)%string; [discriminate |].
  intros [= <-]. shape_of_literal.
Qed.

Lemma epic_shape (item : epic_item) (c : LicensedCandidate) :
  epic_candidate item = Some c -> emitted_shape NASAEPIC c.
Proof. intros [= <-]. shape_of_literal. Qed.

Lemma met_shape (object : Z -> response met_object) (objectId : Z)
    (c : LicensedCandidate) :
  met_candidate object objectId = Some c -> emitted_shape MetMuseum c.
Proof.
  unfold met_candidate. destruct (object objectId); try discriminate.
  destruct (_ || _)%bool; [discriminate |]. intros [= <-]. shape_of_literal.
Qed.

Lemma artic_shape (iiifBase : string) (artwork : artic_artwork)
    (c : LicensedCandidate) :
  artic_candidate iiifBase artwork = Some c -> emitted_shape ArtInstituteChicago c.
Proof.
  unfold artic_candidate. destruct (_ || _)%bool; [discriminate |].
  intros [= <-]. shape_of_literal.
Qed.

Lemma smithsonian_shape (row : si_row) (c : LicensedCandidate) :
  smithsonian_candidate row = Some c -> emitted_shape Smithsonian c.
Proof.
  unfold smithsonian_candidate. destruct (si_row_content row); [| discriminate].
  destruct (negb _); [discriminate |]. intros [= <-]. shape_of_literal.
Qed.

(** The rights of a candidate that Europeana emits are one of the three
    Creative Commons classes. *)
Lemma europeana_emitted_license (rightsUrl : option string) :
  ((parseEuropeanaRights rightsUrl =? License.UNKNOWN)%string
   || (parseEuropeanaRights rightsUrl =? License.NOT_ALLOWED)%string)%bool = false ->
  In (parseEuropeanaRights rightsUrl) [License.CC0; License.CCBYSA; License.CCBY].
Proof.
  intros Hguard. apply orb_false_iff in Hguard as [Hu Hn].
  apply String.eqb_neq in Hu. apply String.eqb_neq in Hn.
  pose proof (europeana_license_range rightsUrl) as Hrange. simpl in *.
  intuition.
Qed.

Lemma europeana_shape (item : europeana_item) (c : LicensedCandidate) :
  europeana_candidate item = Some c -> emitted_shape Europeana c.
Proof.
  unfold europeana_candidate. destruct (negb _); [discriminate |].
  destruct (_ || _)%bool eqn:Hguard; [discriminate |].
  apply europeana_emitted_license in Hguard.
  intros [= <-]. unfold emitted_shape, image_shaped. cbn [id src k lic].
  repeat split; try discriminate; simpl; auto 8.
  simpl in Hguard. intuition.
Qed.

Lemma unsplash_shape (photo : unsplash_photo) (c : LicensedCandidate) :
  unsplash_candidate photo = Some c -> emitted_shape Unsplash c.
Proof.
  unfold unsplash_candidate. destruct (negb _); [discriminate |].
  intros [= <-]. shape_of_literal.
Qed.

Lemma hn_shape (item : Z -> response (option hn_story)) (id_ : Z)
    (c : LicensedCandidate) :
  hn_candidate item id_ = Some c -> emitted_shape HackerNews c.
Proof.
  unfold hn_candidate. destruct (item id_) as [| | [s |]]; try discriminate.
  destruct (_ || _)%bool; [discriminate |]. intros [= <-]. shape_of_literal.
Qed.

Lemma wikimedia_shape (page : wc_page) (c : LicensedCandidate) :
  wikimedia_candidate page = Some c -> emitted_shape WikimediaCommons c.
Proof.
  unfold wikimedia_candidate. destruct (wc_info page) as [imageinfo |]; [| discriminate].
  destruct (negb _) eqn:Hguard; [discriminate |].
  apply negb_false_iff, array_includes_In in Hguard.
  intros [= <-]. unfold emitted_shape, image_shaped. cbn [id src k lic].
  repeat split; try discriminate; simpl; auto 8.
Qed.

Lemma emitted_shapes (w : world) (f : fetcher) (limit : Z) :
  Forall (emitted_shape f) (candidates_of w f limit).
Proof.
  destruct f; simpl.
  - unfold fetchNASAAPOD. destruct (apod_answer w); try constructor.
    apply for_of_Forall; [apply apod_shape | constructor].
  - unfold fetchNASAEPIC. destruct (epic_answer w); try constructor.
    apply for_of_Forall; [apply epic_shape | constructor].
  - unfold fetchMetMuseum. destruct (met_search_answer w); try constructor.
    apply for_of_until_Forall; [apply met_shape | constructor].
  - unfold fetchArtInstituteChicago. destruct (artic_answer w); try constructor.
    apply for_of_Forall; [apply artic_shape | constructor].
  - unfold fetchSmithsonian. destruct (negb _); [constructor |].
    destruct (smithsonian_answer w); try constructor.
    apply for_of_Forall; [apply smithsonian_shape | constructor].
  - unfold fetchEuropeana. destruct (negb _); [constructor |].
    destruct (europeana_answer w); try constructor.
    apply for_of_until_Forall; [apply europeana_shape | constructor].
  - unfold fetchWikimediaCommons. destruct (wikimedia_answer w); try constructor.
    apply for_of_until_Forall; [apply wikimedia_shape | constructor].
  - unfold fetchUnsplash. destruct (negb _); [constructor |].
    destruct (unsplash_answer w); try constructor.
    apply for_of_Forall; [apply unsplash_shape | constructor].
  - unfold fetchHackerNews. destruct (hn_topstories_answer w); try constructor.
    apply for_of_Forall; [apply hn_shape | constructor].
Qed.

(** X1. Whatever the upstreams answer, every candidate an adapter emits
    has a non-empty [id] and [src]; a candidate of the Hacker News
    adapter has kind ['link'], license [UNKNOWN] and an empty [u], and a
    candidate of any other adapter has one of the five image kinds and a
    render-allowed license. *)
Theorem adapters_emit_links_or_licensed_images (w : world) (f : fetcher)
    (limit : Z) (c : LicensedCandidate) :
  In c (candidates_of w f limit) ->
  id c <> "" /\ src c <> ""
  /\ match f with
     | HackerNews => link_shaped c
     | _ => image_shaped c
     end.
Proof.
  intros Hc.
  exact (proj1 (List.Forall_forall _ _) (emitted_shapes w f limit) c Hc).
Qed.

Lemma adapters_emit_links_or_licensed_images_witness :
  In apod_sample (candidates_of apod_world NASAAPOD 5)
  /\ id apod_sample <> "" /\ src apod_sample <> ""
  /\ image_shaped apod_sample.
Proof.
  assert (Hin : In apod_sample (candidates_of apod_world NASAAPOD 5))
    by (left; reflexivity).
  split; [exact Hin |].
  exact (adapters_emit_links_or_licensed_images apod_world NASAAPOD 5
           apod_sample Hin).
Defined.

(** ** The harvest over the adapters of the source *)

Lemma filter_none {A} (p : A -> bool) (l : list A) :
  (forall x, In x l -> p x = false) -> List.filter p l = [].
Proof.
  induction l as [| x l IH]; intros Hall; simpl; [reflexivity |].
  rewrite (Hall x) by (now left). apply IH. intros y Hy. apply Hall. now right.
Qed.

Lemma contributions_upstream (w : world) (surfaces : list string) (limit : Z)
    (c : LicensedCandidate) :
  In c (contributions (settle (upstream w) surfaces limit)) ->
  exists f n, In (f, n) (selected surfaces limit) /\ In c (candidates_of w f n).
Proof.
  unfold contributions, settle. rewrite in_flat_map.
  intros (result & Hres & Hc). apply in_map_iff in Hres as ([f n] & <- & Hsel).
  exists f, n. split; assumption.
Qed.

Lemma emitted_never_linked (f : fetcher) (c : LicensedCandidate) :
  emitted_shape f c -> (valid c && to_links c)%bool = false.
Proof.
  intros (_ & _ & Hshape).
  assert (Hcases : link_shaped c \/ image_shaped c)
    by (destruct f; auto).
  clear Hshape. destruct Hcases as [(_ & _ & Hu & _) | [Hk Hlic]].
  - unfold valid, malformed. rewrite Hu. simpl.
    rewrite !orb_true_r. simpl. now rewrite andb_false_r.
  - assert (Hl : to_links c = false).
    { apply to_links_false. split; [| exact Hlic].
      intros Heq. rewrite Heq in Hk. simpl in Hk.
      repeat (destruct Hk as [Hk | Hk]; [discriminate Hk |]). exact Hk. }
    rewrite Hl. apply andb_false_r.
Qed.

Lemma shuffle_nil {A} (rand : nat -> Q) (n : nat) :
  shuffle rand n (@nil A) = ([], n).
Proof. reflexivity. Qed.

Lemma slice0_nil {A} (e : Z) : JS.slice0 (@nil A) e = [].
Proof. unfold JS.slice0. apply take_nil. Qed.

(** X2. Over the adapters of the source the links bucket is always
    empty, whatever the upstreams answer and whatever surfaces and limit
    are asked for: the candidates of Hacker News, the only links, have an
    empty [u] and fail the required-fields test, and every other
    candidate has a render-allowed license and goes to the images. *)
Theorem harvest_never_returns_links (rand : nat -> Q) (w : world)
    (surfaces : list string) (limit : Z) :
  exists r,
    harvestCandidates rand (upstream w) surfaces limit = JS.fulfilled r
    /\ lnk r = [].
Proof.
  eexists. split; [apply harvestCandidates_unfold |]. simpl.
  assert (Hpool : (pool (upstream w) surfaces limit).2 = []).
  { unfold pool. rewrite collect_spec. simpl. apply filter_none.
    intros c Hc. apply contributions_upstream in Hc as (f & n & _ & Hc).
    apply (emitted_never_linked f).
    exact (proj1 (List.Forall_forall _ _) (emitted_shapes w f n) c Hc). }
  rewrite Hpool, shuffle_nil. apply slice0_nil.
Qed.

Lemma contributions_origin (fs : adapters) (surfaces : list string)
    (limit : Z) (c : LicensedCandidate) :
  In c (contributions (settle fs surfaces limit)) ->
  exists f n cs,
    In (f, n) (selected surfaces limit) /\ fs f n = JS.fulfilled cs /\ In c cs.
Proof.
  unfold contributions, settle. rewrite in_flat_map.
  intros (result & Hres & Hc). apply in_map_iff in Hres as ([f n] & Hfs & Hsel).
  simpl in Hfs. destruct result as [cs | reason]; [| contradiction].
  exists f, n, cs. auto.
Qed.

(** X3. [harvestCandidates] invents nothing and files nothing twice:
    every candidate of either bucket was returned by a selected adapter
    whose promise was fulfilled, and no candidate is in both buckets. *)
Theorem buckets_come_from_adapters (rand : nat -> Q) (fs : adapters)
    (surfaces : list string) (limit : Z) :
  exists r,
    harvestCandidates rand fs surfaces limit = JS.fulfilled r
    /\ (forall c, In c (img r) \/ In c (lnk r) ->
          exists f n cs,
            In (f, n) (selected surfaces limit)
            /\ fs f n = JS.fulfilled cs /\ In c cs)
    /\ (forall c, In c (img r) -> ~ In c (lnk r)).
Proof.
  eexists. split; [apply harvestCandidates_unfold |]. split.
  - intros c [Hc | Hc].
    + eapply img_in_pool in Hc; [| apply harvestCandidates_unfold].
      apply pool_images in Hc as (Hc & _). now apply contributions_origin.
    + eapply lnk_in_pool in Hc; [| apply harvestCandidates_unfold].
      apply pool_links in Hc as (Hc & _). now apply contributions_origin.
  - intros c Hi Hl.
    eapply img_in_pool in Hi; [| apply harvestCandidates_unfold].
    eapply lnk_in_pool in Hl; [| apply harvestCandidates_unfold].
    apply pool_images in Hi as (_ & _ & Hi).
    apply pool_links in Hl as (_ & _ & Hl). congruence.
Qed.

(** ** How many candidates an adapter returns *)

Lemma for_of_length {I} (body : I -> option LicensedCandidate) (items : list I)
    (candidates : list LicensedCandidate) :
  (length (for_of body items candidates) <= length candidates + length items)%nat.
Proof.
  unfold for_of. revert candidates.
  induction items as [| item items IH]; intros candidates; simpl; [lia |].
  etransitivity; [apply IH |].
  destruct (body item); rewrite ?length_app; simpl; lia.
Qed.

Lemma for_of_until_length {I} (limit : Z) (body : I -> option LicensedCandidate)
    (items : list I) (candidates : list LicensedCandidate) :
  Z.of_nat (length (for_of_until limit body items candidates))
  <= Z.max limit (Z.of_nat (length candidates)).
Proof.
  revert candidates.
  induction items as [| item items IH]; intros candidates; simpl; [lia |].
  destruct (Z.geb_spec (Z.of_nat (length candidates)) limit) as [Hge | Hlt]; [lia |].
  etransitivity; [apply IH |].
  destruct (body item); rewrite ?length_app; simpl; lia.
Qed.

(** X4. For a limit that is not negative, six adapters return at most
    [limit] candidates whatever their upstream answers: NASA APOD, NASA
    EPIC, the Met, Europeana, Wikimedia Commons and Hacker News cut the
    payload or stop their loop at the limit. *)
Theorem capped_adapters_respect_limit (w : world) (f : fetcher) (limit : Z) :
  0 <= limit ->
  caps_itself f = true ->
  Z.of_nat (length (candidates_of w f limit)) <= limit.
Proof.
  intros Hlimit Hcap.
  assert (Hslice : forall {I} (body : I -> option LicensedCandidate) (l : list I),
            Z.of_nat (length (for_of body (JS.slice0 l limit) [])) <= limit).
  { intros I body l. pose proof (for_of_length body (JS.slice0 l limit) []).
    pose proof (slice0_length l limit Hlimit). simpl in *. lia. }
  assert (Huntil : forall {I} (body : I -> option LicensedCandidate) (l : list I),
            Z.of_nat (length (for_of_until limit body l [])) <= limit).
  { intros I body l. pose proof (for_of_until_length limit body l []).
    simpl in *. lia. }
  destruct f; try discriminate Hcap; simpl.
  - unfold fetchNASAAPOD. destruct (apod_answer w); simpl; try lia. apply Hslice.
  - unfold fetchNASAEPIC. destruct (epic_answer w); simpl; try lia. apply Hslice.
  - unfold fetchMetMuseum. destruct (met_search_answer w); simpl; try lia.
    apply Huntil.
  - unfold fetchEuropeana. destruct (negb _); simpl; [lia |].
    destruct (europeana_answer w); simpl; try lia. apply Huntil.
  - unfold fetchWikimediaCommons. destruct (wikimedia_answer w); simpl; try lia.
    apply Huntil.
  - unfold fetchHackerNews. destruct (hn_topstories_answer w); simpl; try lia.
    apply Hslice.
Qed.

Lemma capped_adapters_respect_limit_witness :
  Z.of_nat (length (candidates_of hacker_news_world HackerNews 5)) <= 5.
Proof.
  apply (capped_adapters_respect_limit hacker_news_world HackerNews 5);
    [lia | reflexivity].
Defined.

(** The three other adapters leave the cut to their upstream: one that
    answers with more than was asked for is passed on whole. *)
Example unsplash_is_not_capped :
  let photo := {| us_id := "a"; us_regular := Some "https://images.example.org/a";
                  us_small := None; us_description := Some "A hill";
                  us_alt_description := None; us_user_name := None;
                  us_html := None |} in
  length (fetchUnsplash (Some "key") (ok [photo; photo; photo]) 1) = 3%nat.
Proof. reflexivity. Qed.

(** ** Failing upstreams *)

Lemma for_of_none {I} (body : I -> option LicensedCandidate) (items : list I)
    (candidates : list LicensedCandidate) :
  (forall item, body item = None) -> for_of body items candidates = candidates.
Proof.
  intros Hnone. unfold for_of. revert candidates.
  induction items as [| item items IH]; intros candidates; simpl; [reflexivity |].
  now rewrite Hnone, IH.
Qed.

Lemma for_of_until_none {I} (limit : Z) (body : I -> option LicensedCandidate)
    (items : list I) (candidates : list LicensedCandidate) :
  (forall item, body item = None) ->
  for_of_until limit body items candidates = candidates.
Proof.
  intros Hnone. revert candidates.
  induction items as [| item items IH]; intros candidates; simpl; [reflexivity |].
  destruct (_ >=? _); [reflexivity |]. now rewrite Hnone, IH.
Qed.

Lemma down_adapter_returns_nothing (w : world) (f : fetcher) (limit : Z) :
  all_down w -> candidates_of w f limit = [].
Proof.
  intros (Hapod & Hepic & Hmet & Hartic & Hsi & Heu & Hus & Hhn & Hwc).
  destruct f; simpl.
  - unfold fetchNASAAPOD. now destruct (apod_answer w).
  - unfold fetchNASAEPIC. now destruct (epic_answer w).
  - unfold fetchMetMuseum. destruct (met_search_answer w) as [| | ids] eqn:Hs;
      try reflexivity.
    destruct Hmet as [[] | Hobjects].
    apply for_of_until_none. intros objectId. unfold met_candidate.
    specialize (Hobjects objectId). now destruct (met_object_answer w objectId).
  - unfold fetchArtInstituteChicago. now destruct (artic_answer w).
  - unfold fetchSmithsonian. destruct (negb _); [reflexivity |].
    now destruct (smithsonian_answer w).
  - unfold fetchEuropeana. destruct (negb _); [reflexivity |].
    now destruct (europeana_answer w).
  - unfold fetchWikimediaCommons. now destruct (wikimedia_answer w).
  - unfold fetchUnsplash. destruct (negb _); [reflexivity |].
    now destruct (unsplash_answer w).
  - unfold fetchHackerNews. destruct (hn_topstories_answer w) as [| | ids] eqn:Hs;
      try reflexivity.
    destruct Hhn as [[] | Hitems].
    apply for_of_none. intros id_. unfold hn_candidate.
    specialize (Hitems id_). now destruct (hn_item_answer w id_).
Qed.

(** X5. When every adapter meets a failing upstream (a network error or
    a status that is not a success, on its first request or on every
    item request), [harvestCandidates] is still fulfilled, with two
    empty buckets, for every list of surfaces and every limit. *)
Theorem harvest_survives_total_outage (rand : nat -> Q) (w : world)
    (surfaces : list string) (limit : Z) :
  all_down w ->
  harvestCandidates rand (upstream w) surfaces limit
  = JS.fulfilled {| img := []; lnk := [] |}.
Proof.
  intros Hdown. rewrite harvestCandidates_unfold.
  assert (Hnone : contributions (settle (upstream w) surfaces limit) = []).
  { unfold contributions, settle.
    induction (selected surfaces limit) as [| [f n] calls IH]; simpl; [reflexivity |].
    now rewrite IH, down_adapter_returns_nothing. }
  unfold pool. rewrite collect_spec, Hnone. simpl.
  now rewrite !slice0_nil.
Qed.

Lemma harvest_survives_total_outage_witness :
  harvestCandidates always_half (upstream dark_world) ["all"] 5
  = JS.fulfilled {| img := []; lnk := [] |}.
Proof.
  apply (harvest_survives_total_outage always_half dark_world ["all"] 5).
  unfold all_down. simpl. tauto.
Defined.

(** ** The choice of adapters *)

(** The calls depend on the surfaces through five tests only. *)
Lemma selected_by_tests (surfaces : list string) (limit : Z) :
  exists space art culture photo tech : bool,
    (space = true <-> In "space" surfaces \/ In "all" surfaces)
    /\ (art = true <-> In "art" surfaces \/ In "all" surfaces)
    /\ (culture = true <-> In "culture" surfaces \/ In "all" surfaces)
    /\ (photo = true <-> In "photo" surfaces \/ In "all" surfaces)
    /\ (tech = true <-> In "tech" surfaces \/ In "all" surfaces)
    /\ selected surfaces limit =
       (if space then [(NASAAPOD, limit); (NASAEPIC, JS.ceil_half limit)] else [])
       ++ (if art then [(MetMuseum, limit); (ArtInstituteChicago, limit)] else [])
       ++ (if culture
           then [(Smithsonian, limit); (Europeana, limit); (WikimediaCommons, limit)]
           else [])
       ++ (if photo then [(Unsplash, limit)] else [])
       ++ (if tech then [(HackerNews, limit)] else []).
Proof.
  exists (JS.array_includes surfaces "space" || JS.array_includes surfaces "all")%bool,
         (JS.array_includes surfaces "art" || JS.array_includes surfaces "all")%bool,
         (JS.array_includes surfaces "culture" || JS.array_includes surfaces "all")%bool,
         (JS.array_includes surfaces "photo" || JS.array_includes surfaces "all")%bool,
         (JS.array_includes surfaces "tech" || JS.array_includes surfaces "all")%bool.
  rewrite !orb_true_iff, !array_includes_In. repeat split; tauto.
Qed.

(** X6. No adapter is invoked twice in one harvest: whatever the list of
    surfaces (repeated tags, ['all'] beside other tags), the calls pushed
    on [fetchers] name nine adapters at most, each once. *)
Theorem no_adapter_is_invoked_twice (surfaces : list string) (limit : Z) :
  NoDup (map fst (selected surfaces limit))
  /\ (length (selected surfaces limit) <= 9)%nat.
Proof.
  destruct (selected_by_tests surfaces limit)
    as (space & art & culture & photo & tech & _ & _ & _ & _ & _ & ->).
  destruct space, art, culture, photo, tech; simpl; (split; [| lia]);
    repeat constructor; rewrite ?elem_of_cons, ?elem_of_nil; intuition discriminate.
Qed.

(** X7. The tag ['all'] selects every adapter: the calls of any list of
    surfaces are among the calls of [['all']], a list that holds ['all']
    gives exactly the calls of [['all']], and these name the nine
    adapters. *)
Theorem all_selects_every_adapter (surfaces : list string) (limit : Z) :
  (forall call, In call (selected surfaces limit) ->
                In call (selected ["all"] limit))
  /\ (In "all" surfaces -> selected surfaces limit = selected ["all"] limit)
  /\ map fst (selected ["all"] limit)
     = [NASAAPOD; NASAEPIC; MetMuseum; ArtInstituteChicago; Smithsonian;
        Europeana; WikimediaCommons; Unsplash; HackerNews].
Proof.
  split; [| split; [| reflexivity]].
  - destruct (selected_by_tests surfaces limit)
      as (space & art & culture & photo & tech & _ & _ & _ & _ & _ & ->).
    intros call. change (selected ["all"] limit) with
      [(NASAAPOD, limit); (NASAEPIC, JS.ceil_half limit); (MetMuseum, limit);
       (ArtInstituteChicago, limit); (Smithsonian, limit); (Europeana, limit);
       (WikimediaCommons, limit); (Unsplash, limit); (HackerNews, limit)].
    destruct space, art, culture, photo, tech; simpl; tauto.
  - intros Hall.
    destruct (selected_by_tests surfaces limit)
      as (space & art & culture & photo & tech & Hs & Ha & Hc & Hp & Ht & ->).
    rewrite (proj2 Hs), (proj2 Ha), (proj2 Hc), (proj2 Hp), (proj2 Ht) by auto.
    reflexivity.
Qed.

(** X8. Only the membership of the tags counts: two lists of surfaces
    with the same members, in any order and with any repetitions, select
    the same calls in the same order. *)
Theorem selection_ignores_order_and_repeats (surfaces surfaces' : list string)
    (limit : Z) :
  (forall s, In s surfaces <-> In s surfaces') ->
  selected surfaces limit = selected surfaces' limit.
Proof.
  intros Hsame.
  assert (Hincl : forall s, JS.array_includes surfaces s = JS.array_includes surfaces' s).
  { intros s. destruct (JS.array_includes surfaces' s) eqn:H'.
    - apply array_includes_In, Hsame, array_includes_In, H'.
    - apply array_includes_not_In. intros Hin.
      apply Hsame, array_includes_In in Hin. congruence. }
  unfold selected. now rewrite !Hincl.
Qed.

Lemma selection_ignores_order_and_repeats_witness :
  selected ["art"; "tech"] 5 = selected ["tech"; "art"; "tech"] 5.
Proof.
  apply (selection_ignores_order_and_repeats ["art"; "tech"] ["tech"; "art"; "tech"] 5).
  intros s. simpl. tauto.
Defined.

(** X9. Surface tags are matched exactly.  A list of surfaces none of
    which is one of the six tags ['space'], ['art'], ['culture'],
    ['photo'], ['tech'] and ['all'] (a capitalised or misspelt tag, an
    empty string) selects no adapter, and the harvest is fulfilled with
    two empty buckets. *)
Theorem unknown_surfaces_select_nothing (rand : nat -> Q) (fs : adapters)
    (surfaces : list string) (limit : Z) :
  (forall s, In s surfaces -> ~ In s surface_tags) ->
  selected surfaces limit = []
  /\ harvestCandidates rand fs surfaces limit
     = JS.fulfilled {| img := []; lnk := [] |}.
Proof.
  intros Hunknown.
  assert (Hsel : selected surfaces limit = []).
  { destruct (selected_by_tests surfaces limit)
      as (space & art & culture & photo & tech & Hs & Ha & Hc & Hp & Ht & ->).
    assert (Hno : forall tag, In tag surface_tags -> ~ In tag surfaces)
      by (intros tag Htag Hin; exact (Hunknown tag Hin Htag)).
    assert (Hall : ~ In "all" surfaces) by (apply Hno; simpl; tauto).
    destruct space; [exfalso; destruct (proj1 Hs eq_refl) as [H | H];
                     [revert H; apply Hno; simpl; tauto | auto] |].
    destruct art; [exfalso; destruct (proj1 Ha eq_refl) as [H | H];
                   [revert H; apply Hno; simpl; tauto | auto] |].
    destruct culture; [exfalso; destruct (proj1 Hc eq_refl) as [H | H];
                       [revert H; apply Hno; simpl; tauto | auto] |].
    destruct photo; [exfalso; destruct (proj1 Hp eq_refl) as [H | H];
                     [revert H; apply Hno; simpl; tauto | auto] |].
    destruct tech; [exfalso; destruct (proj1 Ht eq_refl) as [H | H];
                    [revert H; apply Hno; simpl; tauto | auto] |].
    reflexivity. }
  split; [exact Hsel |].
  rewrite harvestCandidates_unfold. unfold pool, settle. rewrite Hsel. simpl.
  now rewrite !slice0_nil.
Qed.

Lemma unknown_surfaces_select_nothing_witness :
  selected ["Technology"; "Art"; ""] 5 = []
  /\ harvestCandidates always_half mock_adapters ["Technology"; "Art"; ""] 5
     = JS.fulfilled {| img := []; lnk := [] |}.
Proof.
  apply (unknown_surfaces_select_nothing always_half mock_adapters
           ["Technology"; "Art"; ""] 5).
  intros s Hs Htag. simpl in Hs, Htag.
  repeat (destruct Hs as [Hs | Hs]; [subst s; intuition discriminate |]).
  exact Hs.
Defined.

(** ** Strings *)

Lemma append_cons (c : ascii) (a b : string) :
  String c a +:+ b = String c (a +:+ b).
Proof. reflexivity. Qed.

Lemma append_empty_l (b : string) : "" +:+ b = b.
Proof. reflexivity. Qed.

Lemma append_assoc (a b c : string) : (a +:+ b) +:+ c = a +:+ (b +:+ c).
Proof.
  induction a as [| x a IH]; [reflexivity |].
  now rewrite !append_cons, IH.
Qed.

Lemma append_empty_r (a : string) : a +:+ "" = a.
Proof.
  induction a as [| x a IH]; [reflexivity |]. now rewrite append_cons, IH.
Qed.

Lemma length_append (a b : string) :
  String.length (a +:+ b) = (String.length a + String.length b)%nat.
Proof.
  induction a as [| x a IH]; [reflexivity |].
  rewrite append_cons. simpl. now rewrite IH.
Qed.

Lemma prefix_split (t s : string) :
  String.prefix t s = true <-> exists q, s = t +:+ q.
Proof.
  revert s. induction t as [| a t IH]; intros s.
  - destruct s; simpl; split; eauto.
  - destruct s as [| b s]; simpl.
    + split; [discriminate | intros [q Hq]; discriminate].
    + destruct (ascii_dec a b) as [-> | Hne].
      * rewrite IH. split; intros [q Hq]; exists q;
          rewrite ?append_cons in *; congruence.
      * split; [discriminate | intros [q Hq]; rewrite append_cons in Hq; congruence].
Qed.

Lemma includes_cons (c : ascii) (r t : string) :
  JS.includes (String c r) t =
  if String.prefix t (String c r) then true else JS.includes r t.
Proof. reflexivity. Qed.

(** [s.includes(t)] holds exactly when [t] occurs in [s]. *)
Lemma includes_split (s t : string) :
  JS.includes s t = true <-> exists p q, s = p +:+ t +:+ q.
Proof.
  split.
  - induction s as [| c r IH].
    + destruct t; simpl; [intros _; now exists "", "" | discriminate].
    + rewrite includes_cons. destruct (String.prefix t (String c r)) eqn:Hp.
      * intros _. apply prefix_split in Hp as [q Hq]. now exists "", q.
      * intros Hr. destruct (IH Hr) as (p & q & ->). now exists (String c p), q.
  - intros (p & q & ->). induction p as [| c p IH].
    + rewrite append_empty_l.
      assert (Hp : String.prefix t (t +:+ q) = true)
        by (apply prefix_split; eauto).
      destruct (t +:+ q) as [| c r].
      * destruct t; [reflexivity | discriminate Hp].
      * now rewrite includes_cons, Hp.
    + rewrite append_cons, includes_cons.
      destruct (String.prefix t (String c (p +:+ t +:+ q))); [reflexivity | exact IH].
Qed.

Lemma toLowerCase_append (a b : string) :
  JS.toLowerCase (a +:+ b) = JS.toLowerCase a +:+ JS.toLowerCase b.
Proof.
  induction a as [| x a IH]; [reflexivity |].
  rewrite !append_cons. simpl. now rewrite IH, append_cons.
Qed.

Lemma includes_infix (p s q t : string) :
  JS.includes s t = true -> JS.includes (p +:+ s +:+ q) t = true.
Proof.
  rewrite !includes_split. intros (a & b & ->).
  exists (p +:+ a), (b +:+ q). now rewrite !append_assoc.
Qed.

Lemma existsb_false {A} (p : A -> bool) (l : list A) :
  existsb p l = false <-> forall x, In x l -> p x = false.
Proof.
  induction l as [| y l IH]; simpl.
  - split; [intros _ x [] | reflexivity].
  - rewrite orb_false_iff, IH. split.
    + intros [Hy Hl] x [<- | Hx]; auto.
    + intros Hall. split; [apply Hall; now left | intros x Hx; apply Hall; now right].
Qed.

(** ** The safety filter *)

Lemma safety_check_text (text : string) :
  basicSafetyCheck (Some text) = true <->
  text = "" \/ forall term, In term unsafeTerms ->
                            JS.includes (JS.toLowerCase text) term = false.
Proof.
  unfold basicSafetyCheck. destruct text as [| c text].
  - simpl. split; auto.
  - change (negb (JS.truthy_opt (Some (String c text)))) with false.
    change (JS.to_string (Some (String c text))) with (String c text).
    cbv iota. rewrite negb_true_iff, existsb_false.
    split; [auto | intros [Ht | Ht]; [discriminate | exact Ht]].
Qed.

Lemma safe_infix (p s q : string) :
  basicSafetyCheck (Some (p +:+ s +:+ q)) = true ->
  basicSafetyCheck (Some s) = true.
Proof.
  rewrite !safety_check_text. intros [Hempty | Hsafe].
  - left. destruct p; [destruct s |]; [reflexivity | discriminate | discriminate].
  - right. intros term Hterm.
    destruct (JS.includes (JS.toLowerCase s) term) eqn:Hin; [| reflexivity].
    rewrite <- (Hsafe term Hterm), !toLowerCase_append.
    symmetry. now apply includes_infix.
Qed.

(** X10. The safety filter is monotone: a text that passes it has no
    part that fails it.  In particular, when the text [a + ' ' + b] that
    an adapter checks passes, so do [a] and [b] on their own. *)
Theorem safe_text_has_safe_parts (p s q : string) :
  basicSafetyCheck (Some (p +:+ s +:+ q)) = true ->
  basicSafetyCheck (Some s) = true.
Proof. apply safe_infix. Qed.

Lemma safe_text_has_safe_parts_witness :
  basicSafetyCheck (Some ("Andromeda" +:+ " " +:+ "The nearest large galaxy.")) = true
  /\ basicSafetyCheck (Some " ") = true.
Proof.
  assert (Hall : basicSafetyCheck
                   (Some ("Andromeda" +:+ " " +:+ "The nearest large galaxy.")) = true)
    by reflexivity.
  split; [exact Hall |].
  exact (safe_text_has_safe_parts "Andromeda" " " "The nearest large galaxy." Hall).
Defined.

(** The converse fails: joining two safe texts can spell a blocked
    term. *)
Example joined_text_can_fail :
  basicSafetyCheck (Some "A graphic") = true
  /\ basicSafetyCheck (Some "violence of colour") = true
  /\ basicSafetyCheck (Some ("A graphic" +:+ " " +:+ "violence of colour")) = false.
Proof. repeat split. Qed.

(** ** Truncation *)

Lemma trimStart_suffix (s : string) : exists p, s = p +:+ JS.trimStart s.
Proof.
  induction s as [| c r [p Hp]]; [now exists "" |]. simpl.
  destruct (JS.is_space c).
  - exists (String c p). now rewrite append_cons, <- Hp.
  - now exists "".
Qed.

Lemma trimEnd_prefix (s : string) : exists q, s = JS.trimEnd s +:+ q.
Proof.
  induction s as [| c r [q Hq]]; [now exists "" |]. simpl.
  destruct (JS.is_space c && negb (JS.truthy (JS.trimEnd r)))%bool.
  - now exists (String c r).
  - exists q. now rewrite append_cons, <- Hq.
Qed.

Lemma trim_infix (s : string) : exists p q, s = p +:+ JS.trim s +:+ q.
Proof.
  destruct (trimStart_suffix s) as [p Hp].
  destruct (trimEnd_prefix (JS.trimStart s)) as [q Hq].
  exists p, q. unfold JS.trim. now rewrite <- Hq.
Qed.

Lemma substring_prefix (m : nat) (s : string) :
  exists q, s = String.substring 0 m s +:+ q.
Proof.
  revert s. induction m as [| m IH]; intros s.
  - exists s. now destruct s.
  - destruct s as [| c r]; [now exists "" |]. simpl.
    destruct (IH r) as [q Hq]. exists q. now rewrite append_cons, <- Hq.
Qed.

Lemma substring_length_le (m : nat) (s : string) :
  (String.length (String.substring 0 m s) <= m)%nat.
Proof.
  revert s. induction m as [| m IH]; intros s.
  - destruct s; simpl; lia.
  - destruct s as [| c r]; simpl; [lia |]. specialize (IH r). lia.
Qed.

(** [truncate] on a text that is present and not empty. *)
Lemma truncate_present (c : ascii) (r : string) (maxLen : Z) :
  truncate (Some (String c r)) maxLen =
  if Z.of_nat (String.length (JS.trim (String c r))) <=? maxLen
  then JS.trim (String c r)
  else JS.str_slice0 (JS.trim (String c r)) (maxLen - 1) +:+ "…".
Proof. reflexivity. Qed.

Lemma plain_append (a b : string) :
  plain (a +:+ b) = (plain a && plain b)%bool.
Proof.
  induction a as [| x a IH]; [reflexivity |].
  rewrite append_cons. simpl. now rewrite IH, andb_assoc.
Qed.

Lemma plain_infix (p s q : string) : plain (p +:+ s +:+ q) = true -> plain s = true.
Proof. rewrite !plain_append, !andb_true_iff. tauto. Qed.

Lemma utf16_length_append (a b : string) :
  utf16_length (a +:+ b) = (utf16_length a + utf16_length b)%nat.
Proof.
  induction a as [| x a IH]; [reflexivity |].
  rewrite append_cons. simpl. rewrite IH. lia.
Qed.

Lemma utf16_length_plain (s : string) :
  plain s = true -> utf16_length s = String.length s.
Proof.
  induction s as [| c r IH]; [reflexivity |]. simpl.
  rewrite andb_true_iff. intros [Hc Hr]. now rewrite Hc, IH.
Qed.

(** X11. An ASCII text is cut to at most [maxLen] characters: for
    [maxLen] at least 1, the [length] of [truncate(str, maxLen)] is at
    most [maxLen], the ellipsis included. *)
Theorem truncate_fits (s : string) (maxLen : Z) :
  plain s = true ->
  1 <= maxLen ->
  Z.of_nat (utf16_length (truncate (Some s) maxLen)) <= maxLen.
Proof.
  intros Hplain Hmax. destruct s as [| c r]; [simpl; lia |].
  rewrite truncate_present.
  destruct (trim_infix (String c r)) as (p & q & Hs).
  assert (Htrim : plain (JS.trim (String c r)) = true).
  { apply (plain_infix p _ q). now rewrite <- Hs. }
  destruct (Z.leb_spec (Z.of_nat (String.length (JS.trim (String c r)))) maxLen)
    as [Hshort | Hlong].
  - now rewrite utf16_length_plain.
  - rewrite utf16_length_append. unfold JS.str_slice0.
    destruct (Z.ltb_spec (maxLen - 1) 0); [lia |].
    set (m := Z.to_nat _).
    destruct (substring_prefix m (JS.trim (String c r))) as [rest Hrest].
    assert (Hsub : plain (String.substring 0 m (JS.trim (String c r))) = true).
    { apply (plain_infix "" _ rest). rewrite append_empty_l, <- Hrest. exact Htrim. }
    rewrite (utf16_length_plain _ Hsub).
    pose proof (substring_length_le m (JS.trim (String c r))).
    change (utf16_length "…") with 1%nat. subst m. lia.
Qed.

Lemma truncate_fits_witness :
  Z.of_nat (utf16_length (truncate (Some "  The Great Wave off Kanagawa  ") 10)) <= 10.
Proof.
  apply (truncate_fits "  The Great Wave off Kanagawa  " 10); [reflexivity | lia].
Defined.

(** X12. For a [maxLen] that is not negative, [truncate] returns the
    empty string exactly when the text is absent, empty or made of white
    space only; any other text keeps at least its ellipsis. *)
Theorem truncate_empty_iff_blank (str : option string) (maxLen : Z) :
  0 <= maxLen ->
  truncate str maxLen = "" <->
  JS.truthy_opt str = false \/ JS.trim (JS.to_string str) = "".
Proof.
  intros Hmax. destruct str as [[| c r] |]; simpl JS.truthy_opt.
  - split; [now left | reflexivity].
  - rewrite truncate_present. simpl JS.to_string.
    destruct (Z.leb_spec (Z.of_nat (String.length (JS.trim (String c r)))) maxLen)
      as [Hshort | Hlong].
    + split; [now right | intros [Hf | Ht]; [discriminate | exact Ht]].
    + split.
      * intros Hempty. exfalso. revert Hempty. apply append_nonempty. discriminate.
      * intros [Hf | Ht]; [discriminate |]. rewrite Ht in Hlong. simpl in Hlong. lia.
  - split; [now left | reflexivity].
Qed.

Lemma truncate_empty_iff_blank_witness :
  truncate (Some "   ") 50 = "" <->
  JS.truthy_opt (Some "   ") = false \/ JS.trim (JS.to_string (Some "   ")) = "".
Proof. apply (truncate_empty_iff_blank (Some "   ") 50). lia. Defined.

(** ** Safe titles *)

Lemma plain_cons (c : ascii) (r : string) :
  plain (String c r) = ((nat_of_ascii c <? 128)%nat && plain r)%bool.
Proof. reflexivity. Qed.

Lemma high_cons (c : ascii) (r : string) :
  high (String c r) = ((128 <=? nat_of_ascii c)%nat && high r)%bool.
Proof. reflexivity. Qed.

Lemma prefix_append_high (t s h : string) :
  plain t = true -> high h = true ->
  String.prefix t (s +:+ h) = String.prefix t s.
Proof.
  revert s. induction t as [| a t IH]; intros s Ht Hh.
  - now destruct s, h.
  - rewrite plain_cons in Ht. apply andb_true_iff in Ht as [Ha Ht].
    destruct s as [| c r].
    + rewrite append_empty_l. destruct h as [| e h]; [reflexivity |].
      rewrite high_cons in Hh. apply andb_true_iff in Hh as [He _].
      cbn [String.prefix].
      destruct (ascii_dec a e) as [-> | _]; [| reflexivity].
      apply Nat.ltb_lt in Ha. apply Nat.leb_le in He. lia.
    + rewrite append_cons. cbn [String.prefix].
      destruct (ascii_dec a c); [now apply IH | reflexivity].
Qed.

Lemma includes_high (t h : string) :
  plain t = true -> t <> "" -> high h = true -> JS.includes h t = false.
Proof.
  intros Ht Hne. induction h as [| e h IH]; intros Hh.
  - destruct t; [contradiction | reflexivity].
  - rewrite includes_cons.
    change (String e h) with ("" +:+ String e h).
    rewrite (prefix_append_high t "" (String e h) Ht Hh).
    rewrite high_cons in Hh. apply andb_true_iff in Hh as [_ Hh].
    destruct t; [contradiction |]. cbn [String.prefix]. now apply IH.
Qed.

Lemma includes_append_high (t s h : string) :
  plain t = true -> t <> "" -> high h = true ->
  JS.includes (s +:+ h) t = JS.includes s t.
Proof.
  intros Ht Hne Hh. induction s as [| c r IH].
  - rewrite append_empty_l, (includes_high t h Ht Hne Hh).
    destruct t; [contradiction | reflexivity].
  - rewrite append_cons, !includes_cons, <- append_cons.
    now rewrite (prefix_append_high t (String c r) h Ht Hh), IH.
Qed.

Lemma unsafeTerms_plain (term : string) :
  In term unsafeTerms -> plain term = true /\ term <> "".
Proof.
  intros Hin. simpl in Hin.
  repeat (destruct Hin as [<- | Hin]; [split; [reflexivity | discriminate] |]).
  contradiction.
Qed.

Lemma safe_with_ellipsis (x : string) :
  basicSafetyCheck (Some x) = true -> basicSafetyCheck (Some (x +:+ "…")) = true.
Proof.
  rewrite !safety_check_text. intros [-> | Hsafe]; right; intros term Hterm.
  - destruct (unsafeTerms_plain term Hterm) as [Hp Hne].
    now apply includes_high.
  - destruct (unsafeTerms_plain term Hterm) as [Hp Hne].
    rewrite toLowerCase_append. change (JS.toLowerCase "…") with "…".
    rewrite includes_append_high by auto. now apply Hsafe.
Qed.

(** Cutting a text that passes the filter gives a text that passes. *)
Lemma truncate_safe (str : option string) (maxLen : Z) :
  basicSafetyCheck str = true ->
  basicSafetyCheck (Some (truncate str maxLen)) = true.
Proof.
  destruct str as [[| c r] |]; try reflexivity.
  intros Hsafe. rewrite truncate_present.
  destruct (trim_infix (String c r)) as (p & q & Hs).
  assert (Htrim : basicSafetyCheck (Some (JS.trim (String c r))) = true)
    by (apply (safe_infix p _ q); now rewrite <- Hs).
  destruct (_ <=? _); [exact Htrim |].
  apply safe_with_ellipsis. unfold JS.str_slice0.
  set (m := Z.to_nat _).
  destruct (substring_prefix m (JS.trim (String c r))) as [rest Hrest].
  apply (safe_infix "" _ rest). now rewrite append_empty_l, <- Hrest.
Qed.

Lemma or_else_cases (a : option string) (b : string) :
  (JS.or_else a b = b /\ JS.or_else a "" = "")
  \/ (exists s, a = Some s /\ JS.or_else a b = s /\ JS.or_else a "" = s).
Proof.
  destruct a as [[| c r] |]; simpl; eauto.
Qed.

Lemma apod_safe_title (item : apod_item) (c : LicensedCandidate) :
  apod_candidate item = Some c -> safe_title c.
Proof.
  unfold apod_candidate. destruct (_ =? _)%string; [discriminate |].
  intros [= <-]. unfold safe_title. cbn [safe ttl].
  destruct (apod_title item) as [title |]; [| reflexivity].
  intros Hsafe. apply truncate_safe.
  apply (safe_infix "" title (" " +:+ JS.to_string (apod_explanation item))).
  exact Hsafe.
Qed.

Lemma met_safe_title (object : Z -> response met_object) (objectId : Z)
    (c : LicensedCandidate) :
  met_candidate object objectId = Some c -> safe_title c.
Proof.
  unfold met_candidate. destruct (object objectId); try discriminate.
  destruct (_ || _)%bool; [discriminate |]. intros [= <-].
  unfold safe_title. cbn [safe ttl]. apply truncate_safe.
Qed.

Lemma artic_safe_title (iiifBase : string) (artwork : artic_artwork)
    (c : LicensedCandidate) :
  artic_candidate iiifBase artwork = Some c -> safe_title c.
Proof.
  unfold artic_candidate. destruct (_ || _)%bool; [discriminate |].
  intros [= <-]. unfold safe_title. cbn [safe ttl]. apply truncate_safe.
Qed.

Lemma hn_safe_title (item : Z -> response (option hn_story)) (id_ : Z)
    (c : LicensedCandidate) :
  hn_candidate item id_ = Some c -> safe_title c.
Proof.
  unfold hn_candidate. destruct (item id_) as [| | [s |]]; try discriminate.
  destruct (_ || _)%bool; [discriminate |]. intros [= <-].
  unfold safe_title. cbn [safe ttl]. apply truncate_safe.
Qed.

Lemma smithsonian_safe_title (row : si_row) (c : LicensedCandidate) :
  smithsonian_candidate row = Some c -> safe_title c.
Proof.
  unfold smithsonian_candidate. destruct (si_row_content row) as [content |];
    [| discriminate].
  destruct (negb _); [discriminate |]. intros [= <-].
  unfold safe_title. cbn [safe ttl].
  destruct (or_else_cases (si_title content) "Smithsonian Item")
    as [[-> _] | (s & _ & -> & ->)].
  - reflexivity.
  - intros Hsafe. now apply truncate_safe.
Qed.

Lemma europeana_safe_title (item : europeana_item) (c : LicensedCandidate) :
  europeana_candidate item = Some c -> safe_title c.
Proof.
  unfold europeana_candidate. destruct (negb _); [discriminate |].
  destruct (_ || _)%bool; [discriminate |]. intros [= <-].
  unfold safe_title. cbn [safe ttl].
  destruct (or_else_cases (eu_title item) "Europeana Item")
    as [[-> _] | (s & _ & -> & ->)].
  - reflexivity.
  - intros Hsafe. apply truncate_safe.
    exact (safe_infix "" s _ Hsafe).
Qed.

Lemma unsplash_safe_title (photo : unsplash_photo) (c : LicensedCandidate) :
  unsplash_candidate photo = Some c -> safe_title c.
Proof.
  unfold unsplash_candidate. destruct (negb _); [discriminate |].
  intros [= <-]. unfold safe_title. cbn [safe ttl]. unfold JS.or_opt.
  destruct (us_description photo) as [[| d ds] |]; simpl JS.truthy_opt; cbv iota.
  - destruct (or_else_cases (us_alt_description photo) "Unsplash Photo")
      as [[-> _] | (s & _ & -> & ->)]; [reflexivity |].
    intros Hsafe. apply truncate_safe. apply (safe_infix " " s "").
    rewrite append_empty_r. exact Hsafe.
  - intros Hsafe. apply truncate_safe.
    exact (safe_infix "" (String d ds) _ Hsafe).
  - destruct (or_else_cases (us_alt_description photo) "Unsplash Photo")
      as [[-> _] | (s & _ & -> & ->)]; [reflexivity |].
    intros Hsafe. apply truncate_safe. apply (safe_infix " " s "").
    rewrite append_empty_r. exact Hsafe.
Qed.

(** X13. A candidate that an adapter flags safe has a title that passes
    the safety filter, for the seven adapters that run the filter on the
    text the title is cut from: cutting and adding the ellipsis never
    spells a blocked term.  (NASA EPIC flags every candidate safe without
    looking at its caption, and Wikimedia Commons checks the page title
    before it removes ['File:'] and the extension from it.) *)
Theorem safe_candidates_have_safe_titles (w : world) (f : fetcher)
    (limit : Z) (c : LicensedCandidate) :
  checks_title f = true ->
  In c (candidates_of w f limit) ->
  safe c = true ->
  basicSafetyCheck (Some (ttl c)) = true.
Proof.
  intros Hf Hc.
  enough (Hall : Forall safe_title (candidates_of w f limit))
    by exact (proj1 (List.Forall_forall _ _) Hall c Hc).
  clear c Hc. destruct f; try discriminate Hf; simpl.
  - unfold fetchNASAAPOD. destruct (apod_answer w); try constructor.
    apply for_of_Forall; [apply apod_safe_title | constructor].
  - unfold fetchMetMuseum. destruct (met_search_answer w); try constructor.
    apply for_of_until_Forall; [apply met_safe_title | constructor].
  - unfold fetchArtInstituteChicago. destruct (artic_answer w); try constructor.
    apply for_of_Forall; [apply artic_safe_title | constructor].
  - unfold fetchSmithsonian. destruct (negb _); [constructor |].
    destruct (smithsonian_answer w); try constructor.
    apply for_of_Forall; [apply smithsonian_safe_title | constructor].
  - unfold fetchEuropeana. destruct (negb _); [constructor |].
    destruct (europeana_answer w); try constructor.
    apply for_of_until_Forall; [apply europeana_safe_title | constructor].
  - unfold fetchUnsplash. destruct (negb _); [constructor |].
    destruct (unsplash_answer w); try constructor.
    apply for_of_Forall; [apply unsplash_safe_title | constructor].
  - unfold fetchHackerNews. destruct (hn_topstories_answer w); try constructor.
    apply for_of_Forall; [apply hn_safe_title | constructor].
Qed.

Lemma safe_candidates_have_safe_titles_witness :
  In apod_sample (candidates_of apod_world NASAAPOD 5)
  /\ basicSafetyCheck (Some (ttl apod_sample)) = true.
Proof.
  assert (Hin : In apod_sample (candidates_of apod_world NASAAPOD 5))
    by (left; reflexivity).
  split; [exact Hin |].
  exact (safe_candidates_have_safe_titles apod_world NASAAPOD 5 apod_sample
           eq_refl Hin eq_refl).
Defined.

(** The two adapters left out do let a blocked term through. *)
Example epic_caption_is_not_checked :
  option_map (fun c => (ttl c, safe c))
    (epic_candidate {| epic_identifier := "1"; epic_date := "2024-01-05 00:01:02";
                       epic_image := "epic_1"; epic_caption := Some "Gore Bay" |})
  = Some ("Gore Bay", true).
Proof. reflexivity. Qed.

Example wikimedia_title_is_checked_before_cleaning :
  option_map (fun c => (ttl c, safe c))
    (wikimedia_candidate
       {| wc_pageid := 1; wc_title := "nuFile:de.jpg";
          wc_info := Some {| wc_thumburl := None;
                             wc_url := "https://upload.example.org/x.jpg";
                             wc_descriptionurl := None;
                             wc_LicenseShortName := Some "CC0";
                             wc_Artist := None;
                             wc_ImageDescription := None |} |})
  = Some ("nude", true).
Proof. reflexivity. Qed.

(** ** License labels *)

(** X14. [rightsToString] has a label exactly for the render-allowed
    licenses: it returns a non-empty string for [PD], [CC0], [CCBY],
    [CCBYSA] and [NASA_PD], and the empty string for [UNKNOWN],
    [NOT_ALLOWED] and every other value. *)
Theorem rights_label_iff_render_allowed (license : string) :
  JS.truthy (rightsToString license) = true
  <-> In license RENDER_ALLOWED_LICENSES.
Proof.
  unfold rightsToString, RENDER_ALLOWED_LICENSES.
  destruct (String.eqb_spec license License.CCBY) as [-> | H1];
    [split; [simpl; tauto | reflexivity] |].
  destruct (String.eqb_spec license License.CCBYSA) as [-> | H2];
    [split; [simpl; tauto | reflexivity] |].
  destruct (String.eqb_spec license License.CC0) as [-> | H3];
    [split; [simpl; tauto | reflexivity] |].
  destruct (String.eqb_spec license License.PD) as [-> | H4];
    [split; [simpl; tauto | reflexivity] |].
  destruct (String.eqb_spec license License.NASA_PD) as [-> | H5];
    [split; [simpl; tauto | reflexivity] |].
  split; [discriminate |]. simpl. intuition congruence.
Qed.

(** ** More on the shuffle *)

(** X15. [shuffle] calls [Math.random()] once for every position but
    the first, so not at all on an array of fewer than two elements,
    which it returns as it is. *)
Theorem shuffle_draws_once_per_position {A} (rand : nat -> Q) (n : nat)
    (array : list A) :
  (shuffle rand n array).2 = (n + (length array - 1))%nat
  /\ ((length array <= 1)%nat -> (shuffle rand n array).1 = array).
Proof.
  split; [apply shuffle_loop_draws |].
  intros Hshort. unfold shuffle.
  replace (length array - 1)%nat with 0%nat by lia. reflexivity.
Qed.

Lemma draw_for_picks (j i : nat) :
  floor_times (draw_for j i) (Z.of_nat i + 1) = Z.of_nat j.
Proof.
  unfold floor_times, draw_for, Qmult, inject_Z, Qfloor. cbn [Qnum Qden].
  rewrite Pos.mul_1_r, Zpos_P_of_succ_nat.
  replace (Z.succ (Z.of_nat i)) with (Z.of_nat i + 1) by lia.
  apply Z.div_mul. lia.
Qed.

Lemma draw_for_unit (j i : nat) :
  (j <= i)%nat -> (0 <= draw_for j i)%Q /\ (draw_for j i < 1)%Q.
Proof.
  intros Hj. unfold draw_for, Qle, Qlt. cbn [Qnum Qden].
  rewrite Zpos_P_of_succ_nat. lia.
Qed.

(** The loop started at call [n] reads the draws from [n] on only. *)
Lemma shuffle_loop_later_draws {A} (rand rand' : nat -> Q) (i n : nat)
    (a : list A) :
  (forall m, (n <= m)%nat -> rand m = rand' m) ->
  shuffle_loop rand n i a = shuffle_loop rand' n i a.
Proof.
  revert n a. induction i as [| i IH]; intros n a Hsame; simpl; [reflexivity |].
  rewrite (Hsame n) by lia. apply IH. intros m Hm. apply Hsame. lia.
Qed.

Lemma swap_lookup_first {A} (a : list A) (i j : nat) (x y : A) :
  a !! i = Some x -> a !! j = Some y -> swap a i j !! i = Some y.
Proof.
  intros Hx Hy. unfold swap. rewrite Hx, Hy.
  pose proof (lookup_lt_Some _ _ _ Hx). pose proof (lookup_lt_Some _ _ _ Hy).
  destruct (decide (i = j)) as [-> | Hne].
  - rewrite list_lookup_insert_eq by (rewrite length_insert; lia). congruence.
  - rewrite list_lookup_insert_ne by congruence.
    now rewrite list_lookup_insert_eq.
Qed.

Lemma swap_drop {A} (a : list A) (i j m : nat) :
  (i < m)%nat -> (j < m)%nat -> drop m (swap a i j) = drop m a.
Proof.
  intros Hi Hj. unfold swap. destruct (a !! i), (a !! j); try reflexivity.
  now rewrite !drop_insert_lt.
Qed.

Lemma take_Permutation_of_drop {A} (a b : list A) (m : nat) :
  a ≡ₚ b -> drop m a = drop m b -> take m a ≡ₚ take m b.
Proof.
  intros Hperm Hdrop.
  apply (Permutation_app_inv_r (drop m a)).
  rewrite Hdrop at 2. now rewrite !take_drop.
Qed.

(** The loop from [i] down reaches any arrangement of the first [i + 1]
    elements. *)
Lemma shuffle_loop_reaches {A} (i n : nat) (a t : list A) :
  (i < length a)%nat ->
  drop (S i) a = drop (S i) t ->
  a ≡ₚ t ->
  exists rand, unit_draws rand /\ (shuffle_loop rand n i a).1 = t.
Proof.
  revert n a. induction i as [| i IH]; intros n a Hi Hdrop Hperm.
  - exists always_half. split; [intros m; split; [discriminate | reflexivity] |].
    simpl. pose proof (take_Permutation_of_drop a t 1 Hperm Hdrop) as Hhead.
    rewrite <- (take_drop 1 a), <- (take_drop 1 t), Hdrop. f_equal.
    pose proof (Permutation_length Hperm) as Hlen.
    destruct a as [| x a]; [simpl in Hi; lia |].
    destruct t as [| y t]; [discriminate Hlen |].
    simpl in *. now rewrite (Permutation_singleton_inj _ _ Hhead).
  - pose proof (Permutation_length Hperm) as Hlen.
    destruct (lookup_lt_is_Some_2 t (S i)) as [y Hy]; [lia |].
    destruct (lookup_lt_is_Some_2 a (S i) Hi) as [x Hx].
    pose proof (take_Permutation_of_drop a t (S (S i)) Hperm Hdrop) as Htake.
    assert (Hin : y ∈ take (S (S i)) a).
    { rewrite Htake. apply elem_of_take. exists (S i). split; [exact Hy | lia]. }
    apply elem_of_take in Hin as (j & Hj & Hjlt).
    set (a' := swap a (S i) j).
    assert (Hy' : a' !! S i = Some y) by (eapply swap_lookup_first; eassumption).
    assert (Hdrop' : drop (S i) a' = drop (S i) t).
    { rewrite (drop_S _ _ _ Hy'), (drop_S _ _ _ Hy). f_equal.
      unfold a'. rewrite swap_drop by lia. exact Hdrop. }
    assert (Hperm' : a' ≡ₚ t)
      by (unfold a'; now rewrite swap_Permutation).
    destruct (IH (S n) a') as (rand' & Hunit' & Hloop').
    { unfold a'. rewrite swap_length. lia. }
    { exact Hdrop'. }
    { exact Hperm'. }
    exists (fun m => if (m =? n)%nat then draw_for j (S i) else rand' m).
    split.
    + intros m. destruct (m =? n)%nat; [apply draw_for_unit; lia | apply Hunit'].
    + cbn [shuffle_loop]. rewrite Nat.eqb_refl.
      rewrite draw_for_picks, Nat2Z.id. fold a'.
      rewrite <- Hloop'. f_equal. apply shuffle_loop_later_draws.
      intros m Hm. destruct (Nat.eqb_spec m n); [lia | reflexivity].
Qed.

(** X16. The shuffle leaves no arrangement out: for every permutation of
    the input there are values of [Math.random()], each in [0, 1), with
    which [shuffle] returns that permutation. *)
Theorem shuffle_reaches_every_permutation {A} (n : nat) (array target : list A) :
  Permutation target array ->
  exists rand, unit_draws rand /\ (shuffle rand n array).1 = target.
Proof.
  intros Hperm. symmetry in Hperm.
  pose proof (Permutation_length Hperm) as Hlen.
  destruct array as [| x array].
  - apply Permutation_nil_l in Hperm as <-.
    exists always_half. split; [| reflexivity].
    intros m; split; [discriminate | reflexivity].
  - unfold shuffle. apply shuffle_loop_reaches; [simpl; lia | | exact Hperm].
    rewrite !drop_ge; [reflexivity | simpl in *; lia | simpl; lia].
Qed.

Lemma shuffle_reaches_every_permutation_witness :
  exists rand, unit_draws rand /\ (shuffle rand 0 [1; 2; 3]).1 = [3; 1; 2].
Proof.
  apply (shuffle_reaches_every_permutation 0%nat [1; 2; 3] [3; 1; 2]).
  apply perm_trans with [1; 3; 2]; [apply perm_swap | apply perm_skip, perm_swap].
Defined.

(** * The candidates endpoint *)

Example parseInt_values :
  parseInt (Some "12") = Some 12
  /\ parseInt (Some "  +7 items") = Some 7
  /\ parseInt (Some "-3") = Some (-3)
  /\ parseInt (Some "0x1f") = Some 31
  /\ parseInt (Some "08") = Some 8
  /\ parseInt (Some "1e3") = Some 1
  /\ parseInt (Some "ten") = None
  /\ parseInt (Some "") = None
  /\ parseInt (Some "0x") = None
  /\ parseInt (Some "+-5") = None
  /\ parseInt None = None.
Proof. repeat split. Qed.

Example split_values :
  split "," "space,art" = ["space"; "art"]
  /\ split "," "" = [""]
  /\ split "," "tech," = ["tech"; ""]
  /\ split "," "all" = ["all"].
Proof. repeat split. Qed.

(** X18. The limit the endpoint hands to the harvest is at most 20 and
    never 0, whatever the [limit] parameter of the query: it is 5 when
    the parameter is absent, does not start with a number or reads as 0.
    No lower bound is applied, so a negative number is handed on. *)
Theorem endpoint_limit_is_clamped_above (query_limit : option string) :
  candidates_limit query_limit <= 20
  /\ candidates_limit query_limit <> 0
  /\ (parseInt query_limit = None \/ parseInt query_limit = Some 0 ->
      candidates_limit query_limit = 5)
  /\ candidates_limit (Some "-3") = -3.
Proof.
  unfold candidates_limit.
  split; [lia |]. split; [| split; [| reflexivity]].
  - destruct (parseInt query_limit) as [n |]; [| lia].
    destruct (Z.eqb_spec n 0); lia.
  - intros [-> | ->]; reflexivity.
Qed.

(** X19. The endpoint always answers with the candidates body, never
    with the error: version 1, type ['candidates'], the two license sets
    and the buckets of the harvest.  When the limit read from the query
    is not negative, the body holds at most 40 images and at most 20
    links. *)
Theorem endpoint_answers_bounded_buckets (rand : nat -> Q) (fs : adapters)
    (now : string) (query_surfaces query_limit : option string) :
  exists body,
    get_candidates rand fs now query_surfaces query_limit = json_ok body
    /\ body_v body = 1 /\ body_t body = "candidates"
    /\ body_render_allowed body = RENDER_ALLOWED_LICENSES
    /\ body_attribution_required body = ATTRIBUTION_REQUIRED
    /\ harvestCandidates rand fs (candidates_surfaces query_surfaces)
         (candidates_limit query_limit)
       = JS.fulfilled {| img := body_img body; lnk := body_lnk body |}
    /\ (0 <= candidates_limit query_limit ->
        (length (body_img body) <= 40)%nat /\ (length (body_lnk body) <= 20)%nat).
Proof.
  unfold get_candidates. rewrite harvestCandidates_unfold.
  eexists. split; [reflexivity |]. cbn [body_v body_t body_render_allowed
    body_attribution_required body_img body_lnk img lnk].
  repeat (split; [reflexivity |]).
  intros Hlimit.
  assert (Hmax : candidates_limit query_limit <= 20)
    by (unfold candidates_limit; lia).
  split.
  - match goal with
    | |- (length (JS.slice0 ?l ?e) <= _)%nat =>
        pose proof (slice0_length l e ltac:(lia))
    end. lia.
  - match goal with
    | |- (length (JS.slice0 ?l ?e) <= _)%nat =>
        pose proof (slice0_length l e Hlimit)
    end. lia.
Qed.

(** With a negative limit the bound is lost: [slice] then drops from the
    end of the bucket instead of keeping its start. *)
Example negative_limit_is_not_bounded :
  match get_candidates always_half crowded_adapters "now" (Some "art") (Some "-1") with
  | json_ok body => length (body_img body)
  | json_error _ _ _ => 0%nat
  end = 48%nat.
Proof. vm_compute. reflexivity. Qed.

(** * The sanitizer of card specifications *)

Lemma clamp_string_within (s : option string) (lim : Z) :
  0 <= lim -> Card.within (Card.clamp_string s lim) lim.
Proof.
  intros Hlim. destruct s as [[| c r] |]; [simpl; lia | | exact I].
  unfold Card.clamp_string. cbn [JS.truthy andb].
  destruct (Z.gtb_spec (Z.of_nat (String.length (String c r))) lim) as [Hgt | Hle];
    [| exact Hle].
  unfold Card.within, JS.str_slice0. destruct (Z.ltb_spec lim 0); [lia |].
  pose proof (substring_length_le
                (Z.to_nat (Z.min lim (Z.of_nat (String.length (String c r)))))
                (String c r)).
  lia.
Qed.

Lemma clamp_array_holds {A} (a : option (list A)) (lim : Z) :
  0 <= lim -> Card.holds_at_most (Card.clamp_array a lim) lim.
Proof.
  intros Hlim. destruct a as [items |]; simpl; [| exact I].
  destruct (Z.gtb_spec (Z.of_nat (length items)) lim) as [Hgt | Hle];
    simpl; [| exact Hle].
  now apply slice0_length.
Qed.

(** X20. With limits that are not negative, a sanitized card keeps its
    title, subtitle, stats and badges within the limits of the packet.
    Its quote is within the limit too unless it was replaced: the
    replacement has 24 characters, whatever the limit. *)
Theorem sanitized_card_is_within_limits (spec : Card.CardSpec)
    (lim : Card.limits) :
  Card.sound lim ->
  Card.within (Card.ttl (Card.sanitizeCardSpec spec lim)) (Card.lim_ttl lim)
  /\ Card.within (Card.sub (Card.sanitizeCardSpec spec lim)) (Card.lim_sub lim)
  /\ Card.holds_at_most (Card.st (Card.sanitizeCardSpec spec lim)) (Card.lim_st lim)
  /\ Card.holds_at_most (Card.bg (Card.sanitizeCardSpec spec lim)) (Card.lim_bg lim)
  /\ Card.within (Card.qt (Card.sanitizeCardSpec spec lim))
       (Z.max (Card.lim_qt lim) 24).
Proof.
  intros (Httl & Hsub & Hqt & Hst & Hbg). unfold Card.sanitizeCardSpec.
  cbn [Card.ttl Card.sub Card.st Card.bg Card.qt].
  repeat split; try (now apply clamp_string_within);
    try (now apply clamp_array_holds).
  destruct (Card.personal _ _).
  - simpl. lia.
  - pose proof (clamp_string_within (Card.qt spec) (Card.lim_qt lim) Hqt) as Hw.
    destruct (Card.clamp_string (Card.qt spec) (Card.lim_qt lim)); simpl in *; lia.
Qed.

Lemma sanitized_card_is_within_limits_witness :
  Card.within (Card.ttl (Card.sanitizeCardSpec Card.sample_spec Card.sample_limits)) 20
  /\ Card.within (Card.sub (Card.sanitizeCardSpec Card.sample_spec Card.sample_limits)) 30
  /\ Card.holds_at_most
       (Card.st (Card.sanitizeCardSpec Card.sample_spec Card.sample_limits)) 2
  /\ Card.holds_at_most
       (Card.bg (Card.sanitizeCardSpec Card.sample_spec Card.sample_limits)) 3
  /\ Card.within (Card.qt (Card.sanitizeCardSpec Card.sample_spec Card.sample_limits))
       (Z.max 40 24).
Proof.
  apply (sanitized_card_is_within_limits Card.sample_spec Card.sample_limits).
  unfold Card.sound. simpl. lia.
Defined.

(** The replaced quote overruns a smaller limit. *)
Example replaced_quote_overruns :
  Card.qt (Card.sanitizeCardSpec Card.sample_spec Card.tight_limits)
  = Some "SIGNALS NOTED. CARRY ON."
  /\ Card.lim_qt Card.tight_limits = 10.
Proof. split; reflexivity. Qed.


Example phrase_stays_in_the_title :
  Card.ttl (Card.sanitizeCardSpec Card.sample_spec Card.sample_limits)
  = Some "You seem tired of th"
  /\ Card.qt (Card.sanitizeCardSpec Card.sample_spec Card.sample_limits)
     = Some "SIGNALS NOTED. CARRY ON.".
Proof. split; reflexivity. Qed.

Lemma clamp_string_id (s : option string) (lim : Z) :
  Card.within s lim -> Card.clamp_string s lim = s.
Proof.
  destruct s as [text |]; [| reflexivity]. simpl. intros Hw.
  destruct (Z.gtb_spec (Z.of_nat (String.length text)) lim); [lia |].
  now rewrite andb_false_r.
Qed.

Lemma clamp_array_id {A} (a : option (list A)) (lim : Z) :
  Card.holds_at_most a lim -> Card.clamp_array a lim = a.
Proof.
  destruct a as [items |]; [| reflexivity]. simpl. intros Hw.
  destruct (Z.gtb_spec (Z.of_nat (length items)) lim); [lia | reflexivity].
Qed.

(** X22. Sanitizing is idempotent when no limit is negative and the
    limit of the quote leaves room for the replacement quote (24
    characters): sanitizing a sanitized card changes nothing.  (With a
    smaller limit a second pass cuts the replacement.) *)
Theorem sanitizing_twice_changes_nothing (spec : Card.CardSpec)
    (lim : Card.limits) :
  Card.sound lim ->
  24 <= Card.lim_qt lim ->
  Card.sanitizeCardSpec (Card.sanitizeCardSpec spec lim) lim
  = Card.sanitizeCardSpec spec lim.
Proof.
  intros (Httl & Hsub & Hqt & Hst & Hbg) Hroom.
  unfold Card.sanitizeCardSpec.
  cbn [Card.v Card.t Card.k Card.ttl Card.sub Card.img Card.st Card.qt
       Card.by_ Card.bg Card.src].
  rewrite (clamp_string_id (Card.clamp_string (Card.ttl spec) (Card.lim_ttl lim)))
    by now apply clamp_string_within.
  rewrite (clamp_string_id (Card.clamp_string (Card.sub spec) (Card.lim_sub lim)))
    by now apply clamp_string_within.
  rewrite (clamp_array_id (Card.clamp_array (Card.st spec) (Card.lim_st lim)))
    by now apply clamp_array_holds.
  rewrite (clamp_array_id (Card.clamp_array (Card.bg spec) (Card.lim_bg lim)))
    by now apply clamp_array_holds.
  f_equal.
  - destruct (Card.k spec) as [class |]; [| reflexivity].
    destruct (JS.array_includes Card.validClasses class) eqn:Hin;
      [now rewrite Hin | reflexivity].
  - destruct (Card.personal (Card.clamp_string (Card.qt spec) (Card.lim_qt lim))
                (Card.clamp_string (Card.ttl spec) (Card.lim_ttl lim))) eqn:Hp.
    + rewrite (clamp_string_id (Some "SIGNALS NOTED. CARRY ON."))
        by (simpl; lia).
      match goal with
      | |- (if ?b then _ else _) = _ => destruct b
      end; reflexivity.
    + rewrite (clamp_string_id
                 (Card.clamp_string (Card.qt spec) (Card.lim_qt lim)))
        by now apply clamp_string_within.
      now rewrite Hp.
  - f_equal. destruct (Card.by_ spec) as [[| c r] |]; reflexivity.
Qed.

Lemma sanitizing_twice_changes_nothing_witness :
  Card.sanitizeCardSpec (Card.sanitizeCardSpec Card.sample_spec Card.sample_limits)
    Card.sample_limits
  = Card.sanitizeCardSpec Card.sample_spec Card.sample_limits.
Proof.
  apply (sanitizing_twice_changes_nothing Card.sample_spec Card.sample_limits).
  - unfold Card.sound. simpl. lia.
  - simpl. lia.
Defined.

Example second_pass_cuts_the_replacement :
  Card.qt (Card.sanitizeCardSpec personal_quote_spec Card.tight_limits)
  = Some "SIGNALS NOTED. CARRY ON."
  /\ Card.qt (Card.sanitizeCardSpec
                (Card.sanitizeCardSpec personal_quote_spec Card.tight_limits)
                Card.tight_limits)
     = Some "SIGNALS NO".
Proof. split; reflexivity. Qed.

(** * Letter case *)

Lemma lower_ascii_idempotent (c : ascii) :
  JS.lower_ascii (JS.lower_ascii c) = JS.lower_ascii c.
Proof. destruct c as [[] [] [] [] [] [] [] []]; reflexivity. Qed.

Lemma toLowerCase_idempotent (s : string) :
  JS.toLowerCase (JS.toLowerCase s) = JS.toLowerCase s.
Proof.
  induction s as [| c r IH]; [reflexivity |]. simpl.
  now rewrite lower_ascii_idempotent, IH.
Qed.

Lemma toLowerCase_truthy (s : string) :
  JS.truthy (JS.toLowerCase s) = JS.truthy s.
Proof. now destruct s. Qed.

(** X23. The two license classifiers, the safety filter and the choice
    of a badge icon ignore the case of ASCII letters: each gives the same
    result on a text and on the text in lower case. *)
Theorem classification_ignores_letter_case (s : string) :
  parseWikimediaLicense (Some (JS.toLowerCase s)) = parseWikimediaLicense (Some s)
  /\ parseEuropeanaRights (Some (JS.toLowerCase s)) = parseEuropeanaRights (Some s)
  /\ basicSafetyCheck (Some (JS.toLowerCase s)) = basicSafetyCheck (Some s)
  /\ iconForTag (JS.toLowerCase s) = iconForTag s.
Proof.
  unfold parseWikimediaLicense, parseEuropeanaRights, basicSafetyCheck, iconForTag.
  cbn [JS.truthy_opt JS.to_string].
  rewrite toLowerCase_truthy, toLowerCase_idempotent. repeat split.
Qed.

(** X24. [iconForTag] returns one of six icons, and ['chart'] exactly
    when the tag holds none of the nine key words. *)
Theorem icon_is_one_of_six (tag : string) :
  In (iconForTag tag) ["leaf"; "bolt"; "sun"; "moon"; "target"; "chart"]
  /\ (iconForTag tag = "chart" <->
      forall word,
        In word ["calm"; "settle"; "active"; "system"; "morning"; "sun";
                 "evening"; "night"; "focus"] ->
        JS.includes (JS.toLowerCase tag) word = false).
Proof.
  unfold iconForTag.
  destruct (JS.includes (JS.toLowerCase tag) "calm") eqn:H1;
    [split; [simpl; tauto | split; [discriminate | intros H; specialize (H "calm"); simpl in H; rewrite H in H1 by tauto; discriminate]] |].
  destruct (JS.includes (JS.toLowerCase tag) "settle") eqn:H2;
    [split; [simpl; tauto | split; [discriminate | intros H; specialize (H "settle"); simpl in H; rewrite H in H2 by tauto; discriminate]] |].
  destruct (JS.includes (JS.toLowerCase tag) "active") eqn:H3;
    [split; [simpl; tauto | split; [discriminate | intros H; specialize (H "active"); simpl in H; rewrite H in H3 by tauto; discriminate]] |].
  destruct (JS.includes (JS.toLowerCase tag) "system") eqn:H4;
    [split; [simpl; tauto | split; [discriminate | intros H; specialize (H "system"); simpl in H; rewrite H in H4 by tauto; discriminate]] |].
  destruct (JS.includes (JS.toLowerCase tag) "morning") eqn:H5;
    [split; [simpl; tauto | split; [discriminate | intros H; specialize (H "morning"); simpl in H; rewrite H in H5 by tauto; discriminate]] |].
  destruct (JS.includes (JS.toLowerCase tag) "sun") eqn:H6;
    [split; [simpl; tauto | split; [discriminate | intros H; specialize (H "sun"); simpl in H; rewrite H in H6 by tauto; discriminate]] |].
  destruct (JS.includes (JS.toLowerCase tag) "evening") eqn:H7;
    [split; [simpl; tauto | split; [discriminate | intros H; specialize (H "evening"); simpl in H; rewrite H in H7 by tauto; discriminate]] |].
  destruct (JS.includes (JS.toLowerCase tag) "night") eqn:H8;
    [split; [simpl; tauto | split; [discriminate | intros H; specialize (H "night"); simpl in H; rewrite H in H8 by tauto; discriminate]] |].
  destruct (JS.includes (JS.toLowerCase tag) "focus") eqn:H9;
    [split; [simpl; tauto | split; [discriminate | intros H; specialize (H "focus"); simpl in H; rewrite H in H9 by tauto; discriminate]] |].
  split; [simpl; tauto |]. split; [| reflexivity].
  intros _ word Hword. simpl in Hword.
  repeat (destruct Hword as [<- | Hword]; [assumption |]). contradiction.
Qed.

(** * The size of the buckets *)

(** X25. For a limit that is not negative the buckets are cut exactly.
    Of the candidates that the asked adapters with a fulfilled promise
    return, those that pass the safety and required-fields checks are
    expected in [img] when they are no link and have a render-allowed
    license, and in [lnk] otherwise.  The images bucket holds the smaller
    of [2 * limit] and the number of candidates expected in it, the links
    bucket the smaller of [limit] and the number expected in it, and each
    bucket holds only candidates expected in it, none more often than
    the adapters returned it. *)
Theorem buckets_are_cut_exactly (rand : nat -> Q) (fs : adapters)
    (surfaces : list string) (limit : Z) :
  0 <= limit ->
  exists r,
    harvestCandidates rand fs surfaces limit = JS.fulfilled r
    /\ Z.of_nat (length (img r))
       = Z.min (limit * 2)
           (Z.of_nat (length (expected_images (offered fs surfaces limit))))
    /\ Z.of_nat (length (lnk r))
       = Z.min limit
           (Z.of_nat (length (expected_links (offered fs surfaces limit))))
    /\ img r ⊆+ expected_images (offered fs surfaces limit)
    /\ lnk r ⊆+ expected_links (offered fs surfaces limit).
Proof.
  intros Hlimit. eexists. split; [apply harvestCandidates_unfold |].
  rewrite pool_expected. cbn [img lnk fst snd].
  set (images := expected_images _). set (links := expected_links _).
  destruct (cut_bucket rand 0 images (limit * 2)) as (Hi1 & _ & Hi3).
  destruct (cut_bucket rand (shuffle rand 0 images).2 links limit)
    as (Hl1 & _ & Hl3).
  repeat split; [apply Hi3; lia | apply Hl3; lia | exact Hi1 | exact Hl1].
Qed.

Lemma buckets_are_cut_exactly_witness :
  exists r,
    harvestCandidates always_half mock_adapters ["all"] 2 = JS.fulfilled r
    /\ Z.of_nat (length (img r))
       = Z.min (2 * 2)
           (Z.of_nat (length (expected_images (offered mock_adapters ["all"] 2))))
    /\ Z.of_nat (length (lnk r))
       = Z.min 2
           (Z.of_nat (length (expected_links (offered mock_adapters ["all"] 2))))
    /\ img r ⊆+ expected_images (offered mock_adapters ["all"] 2)
    /\ lnk r ⊆+ expected_links (offered mock_adapters ["all"] 2).
Proof.
  apply (buckets_are_cut_exactly always_half mock_adapters ["all"] 2). lia.
Defined.

(** What is expected of the mocked adapters: the five images of the two
    museums and the three links, of which the limit 2 keeps four and
    two. *)
Example expected_of_the_mock :
  expected_images (offered mock_adapters ["all"] 2) = map sample_image [1; 2; 3; 4; 5]
  /\ expected_links (offered mock_adapters ["all"] 2) = map sample_link [1; 2; 3]
  /\ harvestCandidates always_half mock_adapters ["all"] 2
     = JS.fulfilled {| img := map sample_image [1; 4; 2; 5];
                       lnk := map sample_link [1; 3] |}.
Proof. repeat split. Qed.

(** X17. With draws in [0, 1) the shuffle never touches a position
    outside the array, so it never grows the array or puts [undefined]
    in it. *)
Theorem shuffle_never_leaves_the_array {A} (rand : nat -> Q) (n : nat)
    (array : list A) :
  unit_draws rand ->
  stays_inside rand n (length array - 1) (length array) = true.
Proof.
  intros Hr. destruct array as [| x array]; [reflexivity |].
  apply loop_stays_inside; [exact Hr |]. simpl. lia.
Qed.

Lemma shuffle_never_leaves_the_array_witness :
  stays_inside always_half 0 (length [1; 2; 3; 4; 5] - 1) (length [1; 2; 3; 4; 5])
  = true.
Proof.
  apply (shuffle_never_leaves_the_array always_half 0%nat [1; 2; 3; 4; 5]).
  intros m. split; [discriminate | reflexivity].
Defined.
